(** * img-compress: the upload manager of [src/index.ts]

    A shallow embedding of the [UploadManager] class: its constructor, the
    multer file filter, the image processing branches and [uploadFiles].

    The class talks to four things that live outside the repository:
    - the JavaScript [RegExp] engine (used by [fileFilter]),
    - Node's [path.resolve],
    - the [sharp] image library,
    - the wall clock, read through [moment().unix()].
    [RegExp] and [path.resolve] are modelled by executable functions
    (module [RegExp] covers a fragment of the pattern syntax, module [Path]
    the POSIX flavour of [resolve]); [sharp] is an interface (class [Sharp]);
    the clock is an oracle in the environment.

    JavaScript strings are modelled by [string]; numbers that the code uses
    as pixel sizes, qualities and timestamps by [Z]. *)

From Stdlib Require Import ZArith List String Ascii Bool Lia.
From Stdlib Require Import DecimalString.
From Stdlib.Strings Require Import Byte.
From Stdlib Require DecimalZ DecimalPos.
Import ListNotations.
Local Open Scope list_scope.
Local Open Scope string_scope.

(* ===================================================================== *)
(** ** JavaScript string and array primitives used by the class *)
(* ===================================================================== *)

Module JsString.

(** [s.split(sep)] for a one-character separator: never the empty array. *)
Fixpoint split (sep : ascii) (s : string) : list string :=
  match s with
  | EmptyString => [EmptyString]
  | String c t =>
      if Ascii.eqb c sep then EmptyString :: split sep t
      else match split sep t with
           | h :: r => String c h :: r
           | [] => [String c EmptyString]
           end
  end.

(** [arr.pop()] read for its value: the last element, [undefined] (here
    [None]) on the empty array. *)
Fixpoint pop {A : Type} (l : list A) : option A :=
  match l with
  | [] => None
  | [x] => Some x
  | _ :: r => pop r
  end.

(** [x ?? d] *)
Definition nullish {A : Type} (x : option A) (d : A) : A :=
  match x with Some v => v | None => d end.

(** [arr.join(sep)] *)
Definition join (sep : string) (l : list string) : string :=
  String.concat sep l.

(** [s.startsWith(p)] *)
Fixpoint startsWith (p s : string) : bool :=
  match p, s with
  | EmptyString, _ => true
  | String a p', String b s' => Ascii.eqb a b && startsWith p' s'
  | String _ _, EmptyString => false
  end.

(** [s.includes(p)]: [p] occurs in [s] as a contiguous substring. *)
Fixpoint includes (p s : string) : bool :=
  startsWith p s ||
  match s with
  | EmptyString => false
  | String _ t => includes p t
  end.

(** [`${n}`] for an integral number (decimal digits, leading [-]); agrees
    with JavaScript for [|n| < 10^21]. *)
Definition of_number (n : Z) : string :=
  NilZero.string_of_int (Z.to_int n).

(** [`${x}`] for a possibly undefined string. *)
Definition of_optional (x : option string) : string :=
  nullish x "undefined".

(** ASCII lower-casing; the class itself never calls it. *)
Definition lower_char (c : ascii) : ascii :=
  let n := nat_of_ascii c in
  if (65 <=? n)%nat && (n <=? 90)%nat then ascii_of_nat (n + 32) else c.

Fixpoint toLowerCase (s : string) : string :=
  match s with
  | EmptyString => EmptyString
  | String c t => String (lower_char c) (toLowerCase t)
  end.

End JsString.

(* ===================================================================== *)
(** ** A fragment of JavaScript regular expressions *)
(* ===================================================================== *)

(** [fileFilter] builds its pattern by splicing the allow-list into
    [`(${extensions.join("|")})`] without escaping, so an entry is pattern
    syntax, not text. The fragment modelled here has literal characters,
    [.], alternation and (capturing) groups; any other syntax character
    ([\ ^ $ ? * + [ ] { }]) and unbalanced parentheses put a pattern outside
    of it, and [create] answers [None].

    A subject is a [string] of one-byte characters and [.] takes one of
    them, where a JavaScript string is made of UTF-16 units: model and
    engine agree on subjects made of ASCII characters. *)

Module RegExp.

Inductive regex : Type :=
| Empty                      (* the empty alternative *)
| Char (c : ascii)           (* a literal character *)
| Dot                        (* . *)
| Seq (r1 r2 : regex)
| Or (r1 r2 : regex)         (* r1|r2 *)
| Group (r : regex).         (* (r) *)

Definition is_syntax_char (c : ascii) : bool :=
  existsb (Ascii.eqb c)
    ["\"; "^"; "$"; "."; "|"; "?"; "*"; "+"; "("; ")"; "["; "]"; "{"; "}"]%char.

Definition plain_char (c : ascii) : bool := negb (is_syntax_char c).

Fixpoint plain (s : string) : bool :=
  match s with
  | EmptyString => true
  | String c t => plain_char c && plain t
  end.

(** Line terminators, which [.] does not match (LF and CR among the
    characters [ascii] has). *)
Definition line_terminator (c : ascii) : bool :=
  Ascii.eqb c "010"%char || Ascii.eqb c "013"%char.

(** *** Parsing *)

(** The open alternation: finished alternatives (latest first) and the
    alternative under construction. *)
Record frame : Type := { alts : list regex; cur : regex }.

Record pstate : Type := { top : frame; stack : list frame }.

Definition close (f : frame) : regex :=
  fold_left (fun acc a => Or a acc) (alts f) (cur f).

Definition push_atom (a : regex) (f : frame) : frame :=
  {| alts := alts f; cur := Seq (cur f) a |}.

Definition empty_frame : frame := {| alts := []; cur := Empty |}.

Definition step (st : pstate) (c : ascii) : option pstate :=
  if Ascii.eqb c "|" then
    Some {| top := {| alts := cur (top st) :: alts (top st); cur := Empty |};
            stack := stack st |}
  else if Ascii.eqb c "(" then
    Some {| top := empty_frame; stack := top st :: stack st |}
  else if Ascii.eqb c ")" then
    match stack st with
    | [] => None
    | f :: rest =>
        Some {| top := push_atom (Group (close (top st))) f; stack := rest |}
    end
  else if Ascii.eqb c "." then
    Some {| top := push_atom Dot (top st); stack := stack st |}
  else if is_syntax_char c then None
  else Some {| top := push_atom (Char c) (top st); stack := stack st |}.

Fixpoint run (st : pstate) (s : string) : option pstate :=
  match s with
  | EmptyString => Some st
  | String c t =>
      match step st c with
      | Some st' => run st' t
      | None => None
      end
  end.

(** [new RegExp(source)] *)
Definition create (source : string) : option regex :=
  match run {| top := empty_frame; stack := [] |} source with
  | Some {| top := f; stack := [] |} => Some (close f)
  | _ => None
  end.

(** *** Matching *)

(** All the ways [r] can match a prefix of [s]: the list of what is left
    of [s], in the engine's order of preference. *)
Fixpoint match_here (r : regex) (s : string) : list string :=
  match r with
  | Empty => [s]
  | Char c =>
      match s with
      | String x t => if Ascii.eqb x c then [t] else []
      | EmptyString => []
      end
  | Dot =>
      match s with
      | String x t => if line_terminator x then [] else [t]
      | EmptyString => []
      end
  | Seq r1 r2 => flat_map (match_here r2) (match_here r1 s)
  | Or r1 r2 => (match_here r1 s ++ match_here r2 s)%list
  | Group r' => match_here r' s
  end.

Definition matches_at (r : regex) (s : string) : bool :=
  match match_here r s with [] => false | _ :: _ => true end.

(** [r.test(s)] for a pattern without flags: a match starting anywhere. *)
Fixpoint test (r : regex) (s : string) : bool :=
  matches_at r s ||
  match s with
  | EmptyString => false
  | String _ t => test r t
  end.

(** *** Patterns made of plain text *)

(** What the parser builds from plain text [s] after [acc]. *)
Fixpoint literal (acc : regex) (s : string) : regex :=
  match s with
  | EmptyString => acc
  | String c t => literal (Seq acc (Char c)) t
  end.

(** The frame the parser is in after [entries.join("|")], started with
    the finished alternatives [done] and an empty current one. *)
Fixpoint joined (done : list regex) (entries : list string) : frame :=
  match entries with
  | [] => {| alts := done; cur := Empty |}
  | [e] => {| alts := done; cur := literal Empty e |}
  | e :: rest => joined (literal Empty e :: done) rest
  end.

End RegExp.

(* ===================================================================== *)
(** ** Node's [path.resolve], POSIX flavour *)
(* ===================================================================== *)

Module Path.

(** [normalizeString]: the segments of a path with empty and [.] segments
    dropped and [..] cancelling the segment before it. [out] is the
    output so far, last segment first. *)
Fixpoint normalize (allowAboveRoot : bool) (out : list string)
         (segs : list string) : list string :=
  match segs with
  | [] => rev out
  | seg :: rest =>
      if String.eqb seg "" || String.eqb seg "." then
        normalize allowAboveRoot out rest
      else if String.eqb seg ".." then
        match out with
        | last :: out' =>
            if String.eqb last ".." then
              normalize allowAboveRoot
                (if allowAboveRoot then ".." :: out else out) rest
            else normalize allowAboveRoot out' rest
        | [] =>
            normalize allowAboveRoot
              (if allowAboveRoot then [".."] else []) rest
        end
      else normalize allowAboveRoot (seg :: out) rest
  end.

(** The right-to-left loop of [resolve]: [paths] is the argument list
    reversed, followed by the working directory. *)
Fixpoint gather (paths : list string) (resolvedPath : string)
  : string * bool :=
  match paths with
  | [] => (resolvedPath, false)
  | p :: rest =>
      if String.eqb p "" then gather rest resolvedPath
      else
        let resolvedPath' := p ++ "/" ++ resolvedPath in
        if JsString.startsWith "/" p then (resolvedPath', true)
        else gather rest resolvedPath'
  end.

Definition resolve (cwd : string) (args : list string) : string :=
  let '(resolvedPath, resolvedAbsolute) := gather (rev args ++ [cwd])%list "" in
  let normalized :=
    JsString.join "/"
      (normalize (negb resolvedAbsolute) [] (JsString.split "/" resolvedPath)) in
  if resolvedAbsolute then "/" ++ normalized
  else if String.eqb normalized "" then "." else normalized.

End Path.

(* ===================================================================== *)
(** ** The class [UploadManager] *)
(* ===================================================================== *)

Module UploadManager.

Definition bytes : Type := list byte.

(** *** Data *)

(** [interface UploadOptions] as the caller writes it: every field may be
    left out ([localPath] and [basePath] too, as the README's example does
    for [basePath]). *)
Module Input.
Record t : Type := {
  fileCompression : option bool;
  fileResizeRatio : option (list (Z * Z));
  allowExtension : option (list string);
  imageQuality : option Z;
  localPath : option string;
  basePath : option string
}.
End Input.

(** [this.options] after the constructor has filled the defaults in. *)
Record UploadOptions : Type := {
  fileCompression : bool;
  fileResizeRatio : option (list (Z * Z));
  allowExtension : option (list string);
  imageQuality : Z;
  basePath : string;
  localPath : string
}.

(** [interface FileData], one record of the answer. *)
Module FileData.
Record t : Type := {
  fieldname : string;
  originalname : string;
  encoding : string;
  mimetype : string;
  filename : string;
  destination : string
}.
End FileData.

(** [Express.Multer.File] under memory storage, with the properties the
    class adds to it ([filename], [destination], [contenttype] start out
    undefined). *)
Record MulterFile : Type := {
  fieldname : string;
  originalname : string;
  encoding : string;
  mimetype : string;
  buffer : bytes;
  filename : option string;
  destination : option string;
  contenttype : option string
}.

Definition set_filename (file : MulterFile) (v : string) : MulterFile :=
  {| fieldname := fieldname file; originalname := originalname file;
     encoding := encoding file; mimetype := mimetype file;
     buffer := buffer file; filename := Some v;
     destination := destination file; contenttype := contenttype file |}.

Definition set_destination (file : MulterFile) (v : string) : MulterFile :=
  {| fieldname := fieldname file; originalname := originalname file;
     encoding := encoding file; mimetype := mimetype file;
     buffer := buffer file; filename := filename file;
     destination := Some v; contenttype := contenttype file |}.

Definition set_buffer (file : MulterFile) (v : bytes) : MulterFile :=
  {| fieldname := fieldname file; originalname := originalname file;
     encoding := encoding file; mimetype := mimetype file;
     buffer := v; filename := filename file;
     destination := destination file; contenttype := contenttype file |}.

Definition set_contenttype (file : MulterFile) (v : string) : MulterFile :=
  {| fieldname := fieldname file; originalname := originalname file;
     encoding := encoding file; mimetype := mimetype file;
     buffer := buffer file; filename := filename file;
     destination := destination file; contenttype := Some v |}.

(** The object literal pushed at lines 183-190, 209-216, 223-230 and
    235-242: a copy of six properties of [file] at that moment. *)
Definition snapshot (file : MulterFile) : FileData.t :=
  {| FileData.fieldname := fieldname file;
     FileData.originalname := originalname file;
     FileData.encoding := encoding file;
     FileData.mimetype := mimetype file;
     FileData.filename := JsString.of_optional (filename file);
     FileData.destination := JsString.of_optional (destination file) |}.

(** Values that travel as errors. *)
Inductive js_error : Type :=
| Response (code : Z)      (* the object [{ data: {}, code }] *)
| SharpError.              (* a rejection of a [sharp] promise *)

(** What the completion callback is called with. *)
Inductive callback_args : Type :=
| Failure (err : js_error)                        (* callback(err) *)
| Success (data : list FileData.t) (code : Z).    (* callback(null, {data, code}) *)

(** *** The surroundings *)

Record Env : Type := {
  cwd : string;          (* process.cwd() *)
  dirname : string;      (* __dirname of the compiled module *)
  clock : nat -> Z       (* the answer of the n-th call of moment().unix() *)
}.

(** What a request changes: clock reads so far, and the files written, in
    the order of the writes. *)
Record World : Type := {
  ticks : nat;
  disk : list (string * bytes)
}.

(** The [sharp] pipelines the class builds. [None] is a rejected promise.
    [toFile] is a pipeline like the others, not a plain write: [sharp]
    decodes its input and stores an encoding of it, in the format the
    extension of [path] names when the pipeline selects none. *)
Class Sharp : Type := {
  (* sharp(b).jpeg({ quality }).toBuffer() *)
  jpeg : Z -> bytes -> option bytes;
  (* sharp(b).resize({ width, height }).toBuffer() *)
  resize : Z -> Z -> bytes -> option bytes;
  (* sharp(b).resize({ width, height }).jpeg({ quality }).toBuffer() *)
  resize_jpeg : Z -> Z -> Z -> bytes -> option bytes;
  (* sharp(b).toFile(path): the bytes it stores at [path] *)
  toFile : bytes -> string -> option bytes
}.

(** *** Async code: state that survives a throw *)

(** An [async] body is a function of the world that returns or throws, and
    hands the world on either way: what was written before a rejection
    stays written. The file object a body works on is passed in and handed
    back by value; when a body throws, what it had assigned to the object
    so far is not reported (the callback only gets the error). *)

Inductive outcome (A : Type) : Type :=
| Return (a : A)
| Throw (e : js_error).
Arguments Return {A} a.
Arguments Throw {A} e.

Definition M (A : Type) : Type := World -> outcome A * World.

Definition ret {A : Type} (a : A) : M A := fun w => (Return a, w).

Definition bind {A B : Type} (m : M A) (k : A -> M B) : M B :=
  fun w =>
    match m w with
    | (Return a, w') => k a w'
    | (Throw e, w') => (Throw e, w')
    end.

Declare Scope async_scope.
Delimit Scope async_scope with async.
Notation "x <- m ;; k" := (bind m (fun x => k))
  (at level 61, m at next level, right associativity) : async_scope.
Notation "' p <- m ;; k" := (bind m (fun x => match x with p => k end))
  (at level 61, p pattern, m at next level, right associativity) : async_scope.
Notation "m ;; k" := (bind m (fun _ => k))
  (at level 61, right associativity) : async_scope.
Local Open Scope async_scope.

(** [await p] for a [sharp] promise. *)
Definition await {A : Type} (p : option A) : M A :=
  fun w =>
    match p with
    | Some a => (Return a, w)
    | None => (Throw SharpError, w)
    end.

Definition tick (w : World) : World :=
  {| ticks := S (ticks w); disk := disk w |}.

Definition write (path : string) (stored : bytes) (w : World) : World :=
  {| ticks := ticks w; disk := (disk w ++ [(path, stored)])%list |}.

(** [moment().unix()] *)
Definition moment_unix (env : Env) : M Z :=
  fun w => (Return (clock env (ticks w)), tick w).

(** [await sharp(data).toFile(path)] *)
Definition sharp_toFile `{Sharp} (data : bytes) (path : string) : M unit :=
  stored <- await (toFile data path) ;;
  fun w => (Return tt, write path stored w).

(** The content of [path] on a disk: the last write to it. *)
Fixpoint read_file (d : list (string * bytes)) (path : string) : option bytes :=
  match d with
  | [] => None
  | (p, b) :: rest =>
      match read_file rest path with
      | Some b' => Some b'
      | None => if String.eqb p path then Some b else None
      end
  end.

(** *** constructor (lines 47-61) *)

(** [x || d] on a string that may be missing: [""] is falsy. *)
Definition string_or (x : option string) (d : string) : string :=
  match x with
  | Some s => if String.eqb s "" then d else s
  | None => d
  end.

(** [x || null] on an array that may be missing: every array is truthy. *)
Definition array_or_null {A : Type} (x : option (list A)) : option (list A) := x.

Definition constructor (env : Env) (options : Input.t) : UploadOptions :=
  {| fileCompression :=
       match Input.fileCompression options with Some b => b || false | None => false end;
     fileResizeRatio := array_or_null (Input.fileResizeRatio options);
     allowExtension := array_or_null (Input.allowExtension options);
     imageQuality := JsString.nullish (Input.imageQuality options) 80%Z;
     basePath := string_or (Input.basePath options) (cwd env);
     localPath := string_or (Input.localPath options) "../public" |}.

(** *** fileFilter (lines 62-74) *)

(** What [fileFilter] calls [cb] with. *)
Inductive filter_answer : Type :=
| Accept                    (* cb(null, true) *)
| Reject (err : js_error).  (* cb(err) *)

Definition filter_pattern (opts : UploadOptions) : string :=
  let extensions :=
    JsString.nullish (allowExtension opts) ["jpeg"; "jpg"; "png"] in
  "(" ++ JsString.join "|" extensions ++ ")".

(** [None]: the pattern is outside of the fragment of module [RegExp], and
    the model does not say what the filter does. The code then does one of
    two things: [new RegExp] throws a [SyntaxError], which nothing in the
    class catches (an allow-list entry such as ["*"]), or the pattern is a
    valid one and the filter answers as usual. *)
Definition fileFilter (opts : UploadOptions) (file : MulterFile)
  : option filter_answer :=
  match RegExp.create (filter_pattern opts) with
  | None => None
  | Some filetypes =>
      let extname :=
        RegExp.test filetypes
          (JsString.nullish
             (JsString.pop (JsString.split "." (originalname file))) " ") in
      let mimetype := RegExp.test filetypes (mimetype file) in
      if mimetype || extname then Some Accept
      else Some (Reject (Response 400))
  end.

(** *** compressAndResizeImage, compressImage, resizeImage (lines 75-135) *)

Section WithSharp.
Context `{Sharp}.

Definition compressAndResizeImage (file : MulterFile) (size : Z * Z)
           (imageQuality : Z) : M (bytes * MulterFile) :=
  let '(width, height) := size in
  output <- await (resize_jpeg width height imageQuality (buffer file)) ;;
  let file := set_buffer file output in
  ret (buffer file, file).

Definition compressImage (file : MulterFile) (imageQuality : Z)
  : M (bytes * MulterFile) :=
  output <- await (jpeg imageQuality (buffer file)) ;;
  let file := set_buffer file output in
  ret (buffer file, file).

Definition resizeImage (file : MulterFile) (size : Z * Z)
  : M (bytes * MulterFile) :=
  let '(width, height) := size in
  output <- await (resize width height (buffer file)) ;;
  let file := set_buffer file output in
  ret (buffer file, file).

(** *** processImage (lines 150-245) *)

(** The name of lines 167-169 and 197-199. *)
Definition sized_name (file : MulterFile) (width height now : Z) : string :=
  fieldname file ++ "_" ++ JsString.of_number width ++ "x"
    ++ JsString.of_number height ++ "_" ++ JsString.of_number now ++ ".jpeg".

(** The name of line 151. *)
Definition plain_name (file : MulterFile) (now : Z) : string :=
  fieldname file ++ "_" ++ JsString.of_number now ++ ".jpeg".

(** The two [for (const size of this.options.fileResizeRatio)] loops
    (lines 165-191 and 195-217). Their bodies differ in one statement,
    the transformation awaited at line 177 or 207, here [transform]. *)
Fixpoint forEachSize (env : Env) (opts : UploadOptions)
         (transform : MulterFile -> Z * Z -> M (bytes * MulterFile))
         (bufferData : bytes) (sizes : list (Z * Z))
         (file : MulterFile) (uploadDataList : list FileData.t)
  : M (list FileData.t * MulterFile) :=
  match sizes with
  | [] => ret (uploadDataList, file)
  | size :: rest =>
      let '(width, height) := size in
      now <- moment_unix env ;;
      let fileName := sized_name file width height now in
      let file := set_filename file fileName in
      let dest :=
        Path.resolve (cwd env)
          [dirname env;
           Path.resolve (cwd env) [dirname env; localPath opts];
           fileName] in
      let file := set_destination file dest in
      let file := set_buffer file bufferData in
      '(_, file) <- transform file size ;;
      sharp_toFile (buffer file) dest ;;
      forEachSize env opts transform bufferData rest file
        (uploadDataList ++ [snapshot file])%list
  end.

Definition processImage (env : Env) (opts : UploadOptions)
           (file : MulterFile) : M (list FileData.t * MulterFile) :=
  now <- moment_unix env ;;
  let name := plain_name file now in
  let file := set_filename file name in
  let dest := Path.resolve (cwd env) [basePath opts; localPath opts; name] in
  let file := set_destination file dest in
  let uploadDataList : list FileData.t := [] in
  (* if (compression && ratio) .. else if (ratio != null) ..
     else if (compression) .. else ..; an array is truthy even when it
     is empty *)
  match fileCompression opts, fileResizeRatio opts with
  | true, Some sizes =>
      let bufferData := buffer file in
      forEachSize env opts
        (fun f size => compressAndResizeImage f size (imageQuality opts))
        bufferData sizes file uploadDataList
  | false, Some sizes =>
      let bufferData := buffer file in
      forEachSize env opts resizeImage bufferData sizes file uploadDataList
  | true, None =>
      '(output, file) <- compressImage file (imageQuality opts) ;;
      let file := set_buffer file output in
      sharp_toFile (buffer file) dest ;;
      ret ([snapshot file], file)
  | false, None =>
      sharp_toFile (buffer file) dest ;;
      ret ([snapshot file], file)
  end.

(** *** uploadFiles (lines 247-277) *)

(** [this.upload.any()]: multer asks [fileFilter] about every file part,
    in the order of the body; the first [cb(err)] ends the decoding with
    that [err], otherwise [req.files] holds every part.

    [parts] are the file parts of a multipart body that multer decodes and
    puts to the filter, those that carry a file name (multer drops a part
    without one before it asks). What multer does with a body it cannot
    decode (its own error goes to the callback at lines 253-256) and with a
    request that is not multipart ([req.files] stays undefined, line 260
    throws a [TypeError], line 274 hands it to the callback) is outside of
    this model. *)
Fixpoint multer_any (opts : UploadOptions) (parts : list MulterFile)
  : option (js_error + list MulterFile) :=
  match parts with
  | [] => Some (inr [])
  | part :: rest =>
      match fileFilter opts part with
      | None => None
      | Some (Reject err) => Some (inl err)
      | Some Accept =>
          match multer_any opts rest with
          | Some (inr files) => Some (inr (part :: files))
          | other => other
          end
      end
  end.

(** The name of lines 265-267. *)
Definition passthrough_name (file : MulterFile) (now : Z) : string :=
  fieldname file ++ "_" ++ JsString.of_number now ++ "."
    ++ JsString.of_optional
         (JsString.pop (JsString.split "." (originalname file))).

(** [for (const file of req.files)] (lines 260-270); the second
    component is [req.files] as the loop leaves it. *)
Fixpoint forEachFile (env : Env) (opts : UploadOptions)
         (files : list MulterFile) (uploadedImageDataArr : list FileData.t)
  : M (list FileData.t * list MulterFile) :=
  match files with
  | [] => ret (uploadedImageDataArr, [])
  | file :: rest =>
      if JsString.startsWith "image/" (mimetype file) then
        '(uploadedImageData, file) <- processImage env opts file ;;
        '(arr, rest') <-
           forEachFile env opts rest
             (uploadedImageDataArr ++ uploadedImageData)%list ;;
        ret (arr, file :: rest')
      else
        now <- moment_unix env ;;
        let file := set_filename file (passthrough_name file now) in
        let file := set_contenttype file (mimetype file) in
        '(arr, rest') <- forEachFile env opts rest uploadedImageDataArr ;;
        ret (arr, file :: rest')
  end.

(** [uploadFiles(req, res, callback)]: the arguments of the one call of
    [callback], and the world afterwards. [None] only when the filter's
    pattern is outside of the modelled fragment. *)
Definition uploadFiles (env : Env) (opts : UploadOptions)
           (req : list MulterFile) (w : World)
  : option (callback_args * World) :=
  match multer_any opts req with
  | None => None
  | Some (inl err) => Some (Failure err, w)
  | Some (inr files) =>
      match forEachFile env opts files [] w with
      | (Return (uploadedImageDataArr, _), w') =>
          Some (Success uploadedImageDataArr 200, w')
      | (Throw err, w') => Some (Failure err, w')
      end
  end.

End WithSharp.

End UploadManager.

(* ===================================================================== *)
(** ** Vocabulary of the statements, and sample data *)
(* ===================================================================== *)

Module Spec.

Import UploadManager.

(** The extension [fileFilter] looks at: what follows the last dot of the
    original name, the whole name when it has no dot. *)
Definition extension (originalName : string) : string :=
  JsString.nullish (JsString.pop (JsString.split "." originalName)) " ".

(** The specification's [accepts(originalName, mimeType, allowList)]: some
    entry of the allow-list (the default list when there is none) is a
    substring of the lower-cased extension or of the MIME string. *)
Definition accepts (originalName mimeType : string)
           (allowList : option (list string)) : bool :=
  existsb
    (fun entry =>
       JsString.includes entry (JsString.toLowerCase (extension originalName))
       || JsString.includes entry mimeType)
    (JsString.nullish allowList ["jpeg"; "jpg"; "png"]).

(** The same test on the extension as the name spells it. *)
Definition accepts_verbatim (originalName mimeType : string)
           (allow : list string) : bool :=
  existsb
    (fun entry =>
       JsString.includes entry (extension originalName)
       || JsString.includes entry mimeType)
    allow.

(** The record of a derivative of [file] named [name], stored at [dest]. *)
Definition derivative (file : MulterFile) (name dest : string) : FileData.t :=
  {| FileData.fieldname := fieldname file;
     FileData.originalname := originalname file;
     FileData.encoding := encoding file;
     FileData.mimetype := mimetype file;
     FileData.filename := name;
     FileData.destination := dest |}.

(** A transformation of the resize loops that touches nothing but
    [file.buffer]. *)
Definition buffer_only
           (transform : MulterFile -> Z * Z -> M (bytes * MulterFile)) : Prop :=
  forall file size w,
    match transform file size w with
    | (Return (_, file'), w') =>
        w' = w /\ exists output, file' = set_buffer file output
    | (Throw _, w') => w' = w
    end.

(** [r] describes a derivative of [file]. *)
Definition derived_from (file : MulterFile) (r : FileData.t) : Prop :=
  FileData.fieldname r = fieldname file
  /\ FileData.originalname r = originalname file
  /\ FileData.encoding r = encoding file
  /\ FileData.mimetype r = mimetype file.

(** [file.mimetype.startsWith("image/")] *)
Definition is_image (file : MulterFile) : bool :=
  JsString.startsWith "image/" (mimetype file).

(** The quality range of the specification. *)
Definition quality_in_range (q : Z) : Prop := (1 <= q <= 100)%Z.

End Spec.

(** Sample surroundings, requests and a toy image library, for running the
    class on concrete inputs. *)
Module Demo.

Import UploadManager.

Definition env : Env :=
  {| cwd := "/home/app";
     dirname := "/opt/pkg/dist";
     clock := fun n => (1700000000 + Z.of_nat n)%Z |}.

Definition world : World := {| ticks := 0; disk := [] |}.

(** A toy image format: a tag byte (["P"] for PNG, ["J"] for JPEG) and
    pixel bytes. Encoding as JPEG sets the tag; [toFile] encodes for the
    extension of its path, which this class always makes [.jpeg]. *)
Definition as_jpeg (data : bytes) : option bytes :=
  match data with
  | [] => None
  | _ :: pixels => Some ("J"%byte :: pixels)
  end.

#[export] Instance toy_sharp : Sharp :=
  {| jpeg := fun _ data => as_jpeg data;
     resize := fun _ _ data => match data with [] => None | _ => Some data end;
     resize_jpeg := fun _ _ _ data => as_jpeg data;
     toFile := fun data _ => as_jpeg data |}.

Definition no_options : Input.t :=
  {| Input.fileCompression := None; Input.fileResizeRatio := None;
     Input.allowExtension := None; Input.imageQuality := None;
     Input.localPath := None; Input.basePath := None |}.

Definition with_quality (q : Z) : Input.t :=
  {| Input.fileCompression := None; Input.fileResizeRatio := None;
     Input.allowExtension := None; Input.imageQuality := Some q;
     Input.localPath := None; Input.basePath := None |}.

Definition with_allow (allow : list string) : Input.t :=
  {| Input.fileCompression := None; Input.fileResizeRatio := None;
     Input.allowExtension := Some allow; Input.imageQuality := None;
     Input.localPath := None; Input.basePath := None |}.

(** Resizing to 100x100 into [/srv/app/uploads]. *)
Definition resize_under_srv : Input.t :=
  {| Input.fileCompression := None;
     Input.fileResizeRatio := Some [(100, 100)%Z];
     Input.allowExtension := None; Input.imageQuality := None;
     Input.localPath := Some "uploads"; Input.basePath := Some "/srv/app" |}.

(** The example of the README. *)
Definition readme_options : Input.t :=
  {| Input.fileCompression := Some true;
     Input.fileResizeRatio := Some [(100, 100)%Z; (200, 200)%Z];
     Input.allowExtension := Some ["jpeg"; "jpg"; "png"];
     Input.imageQuality := Some 70%Z;
     Input.localPath := Some "public/img"; Input.basePath := None |}.

(** PDFs allowed next to the default extensions. *)
Definition with_pdf : Input.t :=
  {| Input.fileCompression := None; Input.fileResizeRatio := None;
     Input.allowExtension := Some ["jpeg"; "jpg"; "png"; "pdf"];
     Input.imageQuality := None;
     Input.localPath := None; Input.basePath := None |}.

Definition part (field name mime : string) (data : bytes) : MulterFile :=
  {| fieldname := field; originalname := name; encoding := "7bit";
     mimetype := mime; buffer := data;
     filename := None; destination := None; contenttype := None |}.

Definition png_avatar : MulterFile :=
  part "avatar" "me.png" "image/png" ["P"; "1"; "2"; "3"]%byte.


Definition pdf_report : MulterFile :=
  part "doc" "report.pdf" "application/pdf" ["%"; "P"; "D"; "F"]%byte.

Definition jpeg_scan : MulterFile :=
  part "scan" "scan.jpeg" "image/jpeg" ["J"; "4"; "5"]%byte.

(** The README's options at work on [png_avatar]. *)
Definition readme_manager : UploadOptions := constructor env readme_options.

Definition readme_records : list FileData.t :=
  [ {| FileData.fieldname := "avatar"; FileData.originalname := "me.png";
       FileData.encoding := "7bit"; FileData.mimetype := "image/png";
       FileData.filename := "avatar_100x100_1700000001.jpeg";
       FileData.destination :=
         "/opt/pkg/dist/public/img/avatar_100x100_1700000001.jpeg" |};
    {| FileData.fieldname := "avatar"; FileData.originalname := "me.png";
       FileData.encoding := "7bit"; FileData.mimetype := "image/png";
       FileData.filename := "avatar_200x200_1700000002.jpeg";
       FileData.destination :=
         "/opt/pkg/dist/public/img/avatar_200x200_1700000002.jpeg" |} ].

Definition readme_file : MulterFile :=
  {| fieldname := "avatar"; originalname := "me.png"; encoding := "7bit";
     mimetype := "image/png"; buffer := ["J"; "1"; "2"; "3"]%byte;
     filename := Some "avatar_200x200_1700000002.jpeg";
     destination :=
       Some "/opt/pkg/dist/public/img/avatar_200x200_1700000002.jpeg";
     contenttype := None |}.

Definition readme_world : World :=
  {| ticks := 3;
     disk :=
       [ ("/opt/pkg/dist/public/img/avatar_100x100_1700000001.jpeg",
          ["J"; "1"; "2"; "3"]%byte);
         ("/opt/pkg/dist/public/img/avatar_200x200_1700000002.jpeg",
          ["J"; "1"; "2"; "3"]%byte) ] |}.

(** No options at all, at work on [png_avatar]. *)
Definition plain_manager : UploadOptions := constructor env no_options.

Definition plain_record : FileData.t :=
  {| FileData.fieldname := "avatar"; FileData.originalname := "me.png";
     FileData.encoding := "7bit"; FileData.mimetype := "image/png";
     FileData.filename := "avatar_1700000000.jpeg";
     FileData.destination := "/home/public/avatar_1700000000.jpeg" |}.

Definition plain_file : MulterFile :=
  {| fieldname := "avatar"; originalname := "me.png"; encoding := "7bit";
     mimetype := "image/png"; buffer := ["P"; "1"; "2"; "3"]%byte;
     filename := Some "avatar_1700000000.jpeg";
     destination := Some "/home/public/avatar_1700000000.jpeg";
     contenttype := None |}.

Definition plain_world : World :=
  {| ticks := 1;
     disk := [ ("/home/public/avatar_1700000000.jpeg",
                ["J"; "1"; "2"; "3"]%byte) ] |}.

(** A PDF and a PNG in one request, PDFs allowed. *)
Definition pdf_manager : UploadOptions := constructor env with_pdf.

Definition mixed_request : list MulterFile := [pdf_report; png_avatar].

Definition mixed_records : list FileData.t :=
  [ {| FileData.fieldname := "avatar"; FileData.originalname := "me.png";
       FileData.encoding := "7bit"; FileData.mimetype := "image/png";
       FileData.filename := "avatar_1700000001.jpeg";
       FileData.destination := "/home/public/avatar_1700000001.jpeg" |} ].

Definition mixed_world : World :=
  {| ticks := 2;
     disk := [ ("/home/public/avatar_1700000001.jpeg",
                ["J"; "1"; "2"; "3"]%byte) ] |}.

(** Two images in one request, under the README's options. *)
Definition two_images : list MulterFile := [png_avatar; jpeg_scan].

Definition two_images_records : list FileData.t :=
  (readme_records ++
   [ {| FileData.fieldname := "scan"; FileData.originalname := "scan.jpeg";
        FileData.encoding := "7bit"; FileData.mimetype := "image/jpeg";
        FileData.filename := "scan_100x100_1700000004.jpeg";
        FileData.destination :=
          "/opt/pkg/dist/public/img/scan_100x100_1700000004.jpeg" |};
     {| FileData.fieldname := "scan"; FileData.originalname := "scan.jpeg";
        FileData.encoding := "7bit"; FileData.mimetype := "image/jpeg";
        FileData.filename := "scan_200x200_1700000005.jpeg";
        FileData.destination :=
          "/opt/pkg/dist/public/img/scan_200x200_1700000005.jpeg" |} ])%list.

Definition two_images_world : World :=
  {| ticks := 6;
     disk :=
       (disk readme_world ++
        [ ("/opt/pkg/dist/public/img/scan_100x100_1700000004.jpeg",
           ["J"; "4"; "5"]%byte);
          ("/opt/pkg/dist/public/img/scan_200x200_1700000005.jpeg",
           ["J"; "4"; "5"]%byte) ])%list |}.

End Demo.

(* ===================================================================== *)
(** ** What a run is expected to leave behind *)
(* ===================================================================== *)

Module Plan.

Import UploadManager.

(** [s.endsWith(suffix)] *)
Fixpoint endsWith (suffix s : string) : bool :=
  String.eqb s suffix ||
  match s with
  | EmptyString => false
  | String _ t => endsWith suffix t
  end.

(** The character [c] occurs in [s]. *)
Fixpoint occurs (c : ascii) (s : string) : bool :=
  match s with
  | EmptyString => false
  | String x t => Ascii.eqb x c || occurs c t
  end.

(** Two file objects describe the same uploaded part. *)
Definition same_part (a b : MulterFile) : Prop :=
  fieldname a = fieldname b
  /\ originalname a = originalname b
  /\ encoding a = encoding b
  /\ mimetype a = mimetype b.

(** A transformation of the resize loops is the [sharp] pipeline [f] run on
    [file.buffer], its result stored back into [file.buffer]. *)
Definition lifts (f : Z * Z -> bytes -> option bytes)
           (transform : MulterFile -> Z * Z -> M (bytes * MulterFile)) : Prop :=
  forall file size w,
    transform file size w
    = match f size (buffer file) with
      | Some output => (Return (output, set_buffer file output), w)
      | None => (Throw SharpError, w)
      end.

(** The pipeline a resize loop runs for one ratio. *)
Definition derive `{Sharp} (opts : UploadOptions) (size : Z * Z) (data : bytes)
  : option bytes :=
  let '(width, height) := size in
  if fileCompression opts
  then resize_jpeg width height (imageQuality opts) data
  else resize width height data.

(** The destination the resize loops compute for [name]. *)
Definition loop_destination (env : Env) (opts : UploadOptions) (name : string)
  : string :=
  Path.resolve (cwd env)
    [dirname env; Path.resolve (cwd env) [dirname env; localPath opts]; name].

(** The records of a resize loop whose first turn reads the clock at [tick]. *)
Fixpoint sized_records (env : Env) (opts : UploadOptions) (file : MulterFile)
         (sizes : list (Z * Z)) (tick : nat) : list FileData.t :=
  match sizes with
  | [] => []
  | (width, height) :: rest =>
      let name := sized_name file width height (clock env tick) in
      Spec.derivative file name (loop_destination env opts name)
      :: sized_records env opts file rest (S tick)
  end.

(** The records of [processImage] started when the clock has been read
    [tick] times. *)
Definition expected_records (env : Env) (opts : UploadOptions)
           (file : MulterFile) (tick : nat) : list FileData.t :=
  match fileResizeRatio opts with
  | Some sizes => sized_records env opts file sizes (S tick)
  | None =>
      let name := plain_name file (clock env tick) in
      [Spec.derivative file name
         (Path.resolve (cwd env) [basePath opts; localPath opts; name])]
  end.

(** The buffer a resize loop leaves in [file.buffer]: the output of its
    last turn, the buffer it found when it made no turn. *)
Definition left_in_buffer (f : Z * Z -> bytes -> option bytes)
           (bufferData : bytes) (sizes : list (Z * Z)) (found : bytes) : bytes :=
  fold_left (fun b size => JsString.nullish (f size bufferData) b) sizes found.

(** The records of the loop over [req.files] started when the clock has
    been read [tick] times. *)
Fixpoint request_records (env : Env) (opts : UploadOptions)
         (files : list MulterFile) (tick : nat) : list FileData.t :=
  match files with
  | [] => []
  | file :: rest =>
      if Spec.is_image file then
        (expected_records env opts file tick
         ++ request_records env opts rest
              (S tick + match fileResizeRatio opts with
                        | Some sizes => List.length sizes
                        | None => 0
                        end))%list
      else request_records env opts rest (S tick)
  end.

(** The filter lets [part] through. *)
Definition accepted (opts : UploadOptions) (part : MulterFile) : Prop :=
  fileFilter opts part = Some Accept.

End Plan.

(** More sample data: a library that rejects nothing, and one that rejects
    everything. *)
Module Samples.

Import UploadManager.

Definition echo_sharp : Sharp :=
  {| jpeg := fun _ data => Some ("J"%byte :: data);
     resize := fun _ _ data => Some data;
     resize_jpeg := fun _ _ _ data => Some ("J"%byte :: data);
     toFile := fun data _ => Some data |}.

Definition broken_sharp : Sharp :=
  {| jpeg := fun _ _ => None;
     resize := fun _ _ _ => None;
     resize_jpeg := fun _ _ _ _ => None;
     toFile := fun _ _ => None |}.

(** An image part without a byte, which the toy library cannot decode. *)
Definition blank_image : MulterFile := Demo.part "blank" "blank.png" "image/png" [].

(** The README's options on a PNG followed by the blank image: the PNG's two
    derivatives are written, then the blank image is rejected. *)
Definition interrupted_world : World :=
  {| ticks := 5; disk := disk Demo.readme_world |}.

(** Compression without resize ratios, into [/srv/app/out]. *)
Definition compress_only : Input.t :=
  {| Input.fileCompression := Some true; Input.fileResizeRatio := None;
     Input.allowExtension := None; Input.imageQuality := Some 70%Z;
     Input.localPath := Some "out"; Input.basePath := Some "/srv/app" |}.

Definition compress_manager : UploadOptions := constructor Demo.env compress_only.

Definition compressed_record : FileData.t :=
  {| FileData.fieldname := "avatar"; FileData.originalname := "me.png";
     FileData.encoding := "7bit"; FileData.mimetype := "image/png";
     FileData.filename := "avatar_1700000000.jpeg";
     FileData.destination := "/srv/app/out/avatar_1700000000.jpeg" |}.

Definition compressed_file : MulterFile :=
  {| fieldname := "avatar"; originalname := "me.png"; encoding := "7bit";
     mimetype := "image/png"; buffer := ["J"; "1"; "2"; "3"]%byte;
     filename := Some "avatar_1700000000.jpeg";
     destination := Some "/srv/app/out/avatar_1700000000.jpeg";
     contenttype := None |}.

Definition compressed_world : World :=
  {| ticks := 1;
     disk := [ ("/srv/app/out/avatar_1700000000.jpeg", ["J"; "1"; "2"; "3"]%byte) ] |}.

(** Resize ratios configured as the empty list. *)
Definition no_ratios : Input.t :=
  {| Input.fileCompression := Some true; Input.fileResizeRatio := Some [];
     Input.allowExtension := None; Input.imageQuality := None;
     Input.localPath := None; Input.basePath := None |}.

Definition no_ratios_manager : UploadOptions := constructor Demo.env no_ratios.

(** [req.files] after the PDF and the PNG of [Demo.mixed_request]. *)
Definition mixed_files_after : list MulterFile :=
  [ {| fieldname := "doc"; originalname := "report.pdf"; encoding := "7bit";
       mimetype := "application/pdf"; buffer := buffer Demo.pdf_report;
       filename := Some "doc_1700000000.pdf"; destination := None;
       contenttype := Some "application/pdf" |};
    {| fieldname := "avatar"; originalname := "me.png"; encoding := "7bit";
       mimetype := "image/png"; buffer := buffer Demo.png_avatar;
       filename := Some "avatar_1700000001.jpeg";
       destination := Some "/home/public/avatar_1700000001.jpeg";
       contenttype := None |} ].

(** The two images of [Demo.two_images] under the library that rejects
    nothing. *)
Definition echo_world : World :=
  {| ticks := 6;
     disk :=
       [ ("/opt/pkg/dist/public/img/avatar_100x100_1700000001.jpeg",
          ["J"; "P"; "1"; "2"; "3"]%byte);
         ("/opt/pkg/dist/public/img/avatar_200x200_1700000002.jpeg",
          ["J"; "P"; "1"; "2"; "3"]%byte);
         ("/opt/pkg/dist/public/img/scan_100x100_1700000004.jpeg",
          ["J"; "J"; "4"; "5"]%byte);
         ("/opt/pkg/dist/public/img/scan_200x200_1700000005.jpeg",
          ["J"; "J"; "4"; "5"]%byte) ] |}.

(** The README's ratios without compression, under the library that
    rejects nothing. *)
Definition resize_only : Input.t :=
  {| Input.fileCompression := None;
     Input.fileResizeRatio := Some [(100, 100)%Z; (200, 200)%Z];
     Input.allowExtension := None; Input.imageQuality := None;
     Input.localPath := Some "public/img"; Input.basePath := None |}.

Definition resize_only_manager : UploadOptions := constructor Demo.env resize_only.

Definition resize_only_world : World :=
  {| ticks := 6;
     disk :=
       [ ("/opt/pkg/dist/public/img/avatar_100x100_1700000001.jpeg",
          ["P"; "1"; "2"; "3"]%byte);
         ("/opt/pkg/dist/public/img/avatar_200x200_1700000002.jpeg",
          ["P"; "1"; "2"; "3"]%byte);
         ("/opt/pkg/dist/public/img/scan_100x100_1700000004.jpeg",
          ["J"; "4"; "5"]%byte);
         ("/opt/pkg/dist/public/img/scan_200x200_1700000005.jpeg",
          ["J"; "4"; "5"]%byte) ] |}.

(** A clock that stands still, and a second upload under the field name of
    [Demo.png_avatar]. *)
Definition still_env : Env :=
  {| cwd := "/home/app"; dirname := "/opt/pkg/dist";
     clock := fun _ => 1700000000%Z |}.

Definition second_avatar : MulterFile :=
  Demo.part "avatar" "other.png" "image/png" ["P"; "9"]%byte.

Definition second_record : FileData.t :=
  {| FileData.fieldname := "avatar"; FileData.originalname := "other.png";
     FileData.encoding := "7bit"; FileData.mimetype := "image/png";
     FileData.filename := "avatar_1700000000.jpeg";
     FileData.destination := "/home/public/avatar_1700000000.jpeg" |}.

Definition second_file : MulterFile :=
  {| fieldname := "avatar"; originalname := "other.png"; encoding := "7bit";
     mimetype := "image/png"; buffer := ["P"; "9"]%byte;
     filename := Some "avatar_1700000000.jpeg";
     destination := Some "/home/public/avatar_1700000000.jpeg";
     contenttype := None |}.

Definition second_world : World :=
  {| ticks := 2;
     disk := [ ("/home/public/avatar_1700000000.jpeg", ["J"; "1"; "2"; "3"]%byte);
               ("/home/public/avatar_1700000000.jpeg", ["J"; "9"]%byte) ] |}.

End Samples.

(* ===================================================================== *)
(** * Proofs *)
(* ===================================================================== *)

(** ** Strings *)

Section StringFacts.

Lemma startsWith_append (p s : string) :
  JsString.startsWith p s = true <-> exists rest, s = p ++ rest.
Proof.
  revert s; induction p as [|a p IH]; intros s; simpl.
  - split; [intros _; now exists s | reflexivity].
  - destruct s as [|b s].
    + split; [discriminate | intros [rest Hr]; discriminate].
    + rewrite andb_true_iff, Ascii.eqb_eq, IH. split.
      * intros [-> [rest ->]]. now exists rest.
      * intros [rest Hr]. injection Hr as -> ->. split; [reflexivity | now exists rest].
Qed.

Lemma includes_cons (p : string) (c : ascii) (s : string) :
  JsString.includes p (String c s)
  = JsString.startsWith p (String c s) || JsString.includes p s.
Proof. reflexivity. Qed.

Lemma includes_empty (p : string) :
  JsString.includes p "" = JsString.startsWith p "".
Proof. simpl. now rewrite orb_false_r. Qed.

Lemma existsb_orb {A : Type} (f g : A -> bool) (l : list A) :
  existsb (fun x => f x || g x) l = existsb f l || existsb g l.
Proof.
  induction l as [|x l IH]; simpl; [reflexivity|].
  rewrite IH. destruct (f x), (g x), (existsb f l); reflexivity.
Qed.

Lemma existsb_pointwise {A : Type} (f g : A -> bool) (l : list A) :
  (forall x, f x = g x) -> existsb f l = existsb g l.
Proof.
  intros Hfg. induction l as [|x l IH]; simpl; [reflexivity|].
  now rewrite Hfg, IH.
Qed.

Lemma split_not_nil (sep : ascii) (s : string) : JsString.split sep s <> [].
Proof.
  induction s as [|c t IH]; simpl; [discriminate|].
  destruct (Ascii.eqb c sep); [discriminate|].
  destruct (JsString.split sep t); [contradiction | discriminate].
Qed.

Lemma pop_some {A : Type} (l : list A) : l <> [] -> exists x, JsString.pop l = Some x.
Proof.
  induction l as [|a l IH]; [contradiction|]. intros _.
  destruct l as [|b l]; [now exists a|].
  apply IH. discriminate.
Qed.

End StringFacts.

(** ** The pattern fragment *)

Section RegExpFacts.

Import RegExp.

Lemma step_plain_char (st : pstate) (c : ascii) :
  plain_char c = true ->
  step st c = Some {| top := push_atom (Char c) (top st); stack := stack st |}.
Proof.
  unfold step, plain_char. unfold is_syntax_char. simpl. intros Hc.
  repeat match goal with
         | H : context [Ascii.eqb c ?x] |- _ =>
             destruct (Ascii.eqb c x); simpl in H; try discriminate H
         end.
  reflexivity.
Qed.

Lemma run_plain (s : string) : forall a c k,
  plain s = true ->
  run {| top := {| alts := a; cur := c |}; stack := k |} s
  = Some {| top := {| alts := a; cur := literal c s |}; stack := k |}.
Proof.
  induction s as [|x s IH]; intros a c k Hs; simpl in *; [reflexivity|].
  apply andb_true_iff in Hs as [Hx Hs].
  rewrite (step_plain_char _ _ Hx). simpl. unfold push_atom. simpl.
  now apply IH.
Qed.

Lemma run_append (s1 s2 : string) : forall st,
  run st (s1 ++ s2)
  = match run st s1 with Some st' => run st' s2 | None => None end.
Proof.
  induction s1 as [|c s1 IH]; intros st; simpl; [reflexivity|].
  destruct (step st c); [apply IH | reflexivity].
Qed.

Lemma run_joined (entries : list string) : forall done k,
  forallb plain entries = true ->
  run {| top := {| alts := done; cur := Empty |}; stack := k |}
      (JsString.join "|" entries)
  = Some {| top := joined done entries; stack := k |}.
Proof.
  unfold JsString.join.
  induction entries as [|e rest IH]; intros done k Hp; [reflexivity|].
  simpl in Hp. apply andb_true_iff in Hp as [He Hrest].
  destruct rest as [|e' rest'].
  - simpl. now apply run_plain.
  - change (String.concat "|" (e :: e' :: rest'))
      with (e ++ String "|" (String.concat "|" (e' :: rest'))).
    rewrite run_append, (run_plain e _ _ _ He).
    change (joined done (e :: e' :: rest'))
      with (joined (literal Empty e :: done) (e' :: rest')).
    rewrite <- (IH (literal Empty e :: done) k Hrest). reflexivity.
Qed.

Lemma matches_at_iff (r : regex) (s : string) :
  matches_at r s = true <-> exists y, In y (match_here r s).
Proof.
  unfold matches_at. destruct (match_here r s) as [|y l]; split.
  - discriminate.
  - intros [y []].
  - intros _. exists y. now left.
  - reflexivity.
Qed.

Lemma match_literal (e : string) : forall acc s y,
  In y (match_here (literal acc e) s) <-> In (e ++ y) (match_here acc s).
Proof.
  induction e as [|c e IH]; intros acc s y; simpl; [reflexivity|].
  rewrite IH. simpl. rewrite in_flat_map. split.
  - intros [z [Hz Hy]]. destruct z as [|x z]; [destruct Hy|].
    destruct (Ascii.eqb x c) eqn:Hx; [|destruct Hy].
    apply Ascii.eqb_eq in Hx. subst x.
    destruct Hy as [<- | []]. exact Hz.
  - intros Hin. exists (String c (e ++ y)). split; [exact Hin|].
    rewrite Ascii.eqb_refl. now left.
Qed.

Lemma matches_at_literal (e s : string) :
  matches_at (literal Empty e) s = JsString.startsWith e s.
Proof.
  apply eq_true_iff_eq.
  rewrite matches_at_iff, startsWith_append. split.
  - intros [y Hy]. apply match_literal in Hy. simpl in Hy.
    destruct Hy as [-> | []]. now exists y.
  - intros [rest ->]. exists rest. apply match_literal. now left.
Qed.

Lemma match_close (a : list regex) : forall c s y,
  In y (match_here (close {| alts := a; cur := c |}) s)
  <-> In y (match_here c s) \/ exists r, In r a /\ In y (match_here r s).
Proof.
  unfold close. simpl.
  induction a as [|r a IH]; intros c s y; simpl.
  - split; [now left | intros [Hc | [r [[] _]]]; exact Hc].
  - rewrite IH. simpl. rewrite in_app_iff. split.
    + intros [[Hr | Hc] | [r' [Hr' Hy]]].
      * right. exists r. split; [now left | exact Hr].
      * now left.
      * right. exists r'. split; [now right | exact Hy].
    + intros [Hc | [r' [[<- | Hr'] Hy]]].
      * left. now right.
      * left. now left.
      * right. now exists r'.
Qed.

Lemma matches_at_close (a : list regex) (c : regex) (s : string) :
  matches_at (close {| alts := a; cur := c |}) s
  = matches_at c s || existsb (fun r => matches_at r s) a.
Proof.
  apply eq_true_iff_eq.
  rewrite orb_true_iff, existsb_exists, !matches_at_iff. split.
  - intros [y Hy]. apply match_close in Hy as [Hc | [r [Hr Hy]]].
    + left. now exists y.
    + right. exists r. split; [exact Hr|]. apply matches_at_iff. now exists y.
  - intros [[y Hy] | [r [Hr Hm]]].
    + exists y. apply match_close. now left.
    + apply matches_at_iff in Hm as [y Hy]. exists y. apply match_close.
      right. now exists r.
Qed.

Lemma matches_at_joined (entries : list string) : forall done s,
  matches_at (close (joined done entries)) s
  = (match entries with [] => true | _ :: _ => false end)
    || existsb (fun e => JsString.startsWith e s) entries
    || existsb (fun r => matches_at r s) done.
Proof.
  induction entries as [|e rest IH]; intros done s.
  - simpl. now rewrite matches_at_close.
  - destruct rest as [|e' rest'].
    + simpl. rewrite matches_at_close, matches_at_literal.
      now rewrite orb_false_r.
    + change (joined done (e :: e' :: rest'))
        with (joined (literal Empty e :: done) (e' :: rest')).
      rewrite IH. cbn [existsb orb]. rewrite matches_at_literal.
      destruct (JsString.startsWith e s), (JsString.startsWith e' s),
        (existsb (fun e0 => JsString.startsWith e0 s) rest'),
        (existsb (fun r => matches_at r s) done); reflexivity.
Qed.

(** The pattern [fileFilter] builds from entries free of pattern syntax. *)
Lemma create_alternation (entries : list string) :
  forallb plain entries = true ->
  create ("(" ++ JsString.join "|" entries ++ ")")
  = Some (Seq Empty (Group (close (joined [] entries)))).
Proof.
  intros Hp. unfold create.
  change ("(" ++ JsString.join "|" entries ++ ")")
    with (String "(" (JsString.join "|" entries ++ ")")).
  cbn [run]. change (step {| top := empty_frame; stack := [] |} "(")
    with (Some {| top := {| alts := []; cur := Empty |}; stack := [empty_frame] |}).
  cbv beta iota. rewrite run_append, (run_joined entries [] [empty_frame] Hp).
  reflexivity.
Qed.

Lemma test_group (g : regex) (s : string) :
  test (Seq Empty (Group g)) s = test g s.
Proof.
  induction s as [|c s IH]; simpl; unfold matches_at; simpl;
    rewrite app_nil_r; [reflexivity | now rewrite IH].
Qed.

(** On entries free of pattern syntax, [test] is a search for one of
    them as a substring; the empty alternation matches everywhere. *)
Lemma test_joined (entries : list string) (s : string) :
  test (close (joined [] entries)) s
  = (match entries with [] => true | _ :: _ => false end)
    || existsb (fun e => JsString.includes e s) entries.
Proof.
  induction s as [|c s IH].
  - cbn [test]. rewrite matches_at_joined. cbn [existsb].
    rewrite !orb_false_r. f_equal.
    apply existsb_pointwise. intros e. now rewrite includes_empty.
  - cbn [test]. rewrite IH, matches_at_joined. cbn [existsb].
    change (fun e => JsString.includes e (String c s))
      with (fun e => JsString.startsWith e (String c s) || JsString.includes e s).
    rewrite existsb_orb, orb_false_r.
    destruct entries as [|e0 rest]; [reflexivity|].
    cbv beta iota. rewrite !orb_false_l. reflexivity.
Qed.

End RegExpFacts.

(** ** The constructor and the file filter *)

Section FilterFacts.

Import UploadManager.

(** C9 (as amended): the constructor stores the [imageQuality] it is given
    as it is, whatever its value, and 80 when none is given; so 1 and 100
    are kept unchanged, and so is a value outside of [1,100]. *)
Theorem constructor_keeps_imageQuality (env : Env) (options : Input.t) :
  imageQuality (constructor env options)
  = match Input.imageQuality options with Some q => q | None => 80%Z end.
Proof. unfold constructor. simpl. now destruct (Input.imageQuality options). Qed.

(** C9, counterexample: constructed with quality 500, the manager holds
    500, which is outside of the range of the specification: the value was
    neither clamped nor refused. *)
Lemma constructor_quality_500 :
  imageQuality (constructor Demo.env (Demo.with_quality 500)) = 500%Z
  /\ ~ Spec.quality_in_range
         (imageQuality (constructor Demo.env (Demo.with_quality 500))).
Proof.
  split; [reflexivity|]. unfold Spec.quality_in_range. simpl. lia.
Qed.

Lemma fileFilter_plain (opts : UploadOptions) (file : MulterFile) :
  let allow := JsString.nullish (allowExtension opts) ["jpeg"; "jpg"; "png"] in
  forallb RegExp.plain allow = true ->
  fileFilter opts file
  = Some (if (match allow with [] => true | _ :: _ => false end)
             || Spec.accepts_verbatim (originalname file) (mimetype file) allow
          then Accept else Reject (Response 400)).
Proof.
  intros allow Hplain. unfold fileFilter, filter_pattern.
  fold allow. rewrite (create_alternation allow Hplain).
  rewrite !test_group, !test_joined.
  unfold Spec.accepts_verbatim, Spec.extension. rewrite existsb_orb.
  destruct allow as [|e rest]; [reflexivity|]. cbv beta iota.
  rewrite !orb_false_l, orb_comm.
  match goal with |- (if ?b then _ else _) = _ => now destruct b end.
Qed.




(** An entry is pattern syntax: ["j.g"] lets ["x.jpg"] through, although
    no entry is a substring of the extension or of the MIME type. *)
Lemma fileFilter_entry_is_pattern :
  fileFilter (constructor Demo.env (Demo.with_allow ["j.g"]))
             (Demo.part "f" "x.jpg" "application/octet-stream" [])
  = Some Accept
  /\ Spec.accepts "x.jpg" "application/octet-stream" (Some ["j.g"]) = false.
Proof. split; reflexivity. Qed.

(** C10: constructed with the empty allow-list, the manager keeps it (the
    default list does not replace it), and its filter accepts every file
    part, whatever its name and MIME type. *)
Theorem empty_allow_list_accepts_all
        (env : Env) (options : Input.t) (file : MulterFile) :
  Input.allowExtension options = Some [] ->
  allowExtension (constructor env options) = Some []
  /\ fileFilter (constructor env options) file = Some Accept.
Proof.
  intros Hempty.
  assert (Hkept : allowExtension (constructor env options) = Some [])
    by exact Hempty.
  split; [exact Hkept|].
  pose proof (fileFilter_plain (constructor env options) file) as Hf.
  rewrite Hkept in Hf. exact (Hf eq_refl).
Qed.

(** A PDF under the empty allow-list. *)
Lemma empty_allow_list_accepts_all_witness :
  allowExtension (constructor Demo.env (Demo.with_allow [])) = Some []
  /\ fileFilter (constructor Demo.env (Demo.with_allow [])) Demo.pdf_report
     = Some Accept.
Proof.
  exact (empty_allow_list_accepts_all
           Demo.env (Demo.with_allow []) Demo.pdf_report eq_refl).
Defined.

End FilterFacts.

(** ** The disk *)

Section DiskFacts.

Import UploadManager.

Lemma read_file_last (d : list (string * bytes)) (path : string) (b : bytes) :
  read_file (d ++ [(path, b)])%list path = Some b.
Proof.
  induction d as [|[p c] d IH]; simpl.
  - now rewrite String.eqb_refl.
  - now rewrite IH.
Qed.

End DiskFacts.

(** ** Processing one image *)

Section ProcessImageFacts.

Import UploadManager.
Context `{Sharp}.
Variable env : Env.
Variable opts : UploadOptions.

Lemma compressAndResizeImage_buffer_only (q : Z) :
  Spec.buffer_only (fun f size => compressAndResizeImage f size q).
Proof.
  intros file [width height] w. unfold compressAndResizeImage, bind, await, ret.
  destruct (resize_jpeg width height q (buffer file)) as [output|];
    [split; [reflexivity | now exists output] | reflexivity].
Qed.

Lemma resizeImage_buffer_only : Spec.buffer_only resizeImage.
Proof.
  intros file [width height] w. unfold resizeImage, bind, await, ret.
  destruct (resize width height (buffer file)) as [output|];
    [split; [reflexivity | now exists output] | reflexivity].
Qed.

(** One turn of a resize loop. *)
Lemma forEachSize_cons transform bufferData width height rest file acc w :
  forEachSize env opts transform bufferData ((width, height) :: rest) file acc w
  = let name := sized_name file width height (clock env (ticks w)) in
    let dest :=
      Path.resolve (cwd env)
        [dirname env; Path.resolve (cwd env) [dirname env; localPath opts]; name] in
    let file1 :=
      set_buffer (set_destination (set_filename file name) dest) bufferData in
    match transform file1 (width, height) (tick w) with
    | (Return (_, file2), w2) =>
        match toFile (buffer file2) dest with
        | Some stored =>
            forEachSize env opts transform bufferData rest file2
              (acc ++ [snapshot file2])%list (write dest stored w2)
        | None => (Throw SharpError, w2)
        end
    | (Throw e, w2) => (Throw e, w2)
    end.
Proof.
  cbn [forEachSize]. unfold bind at 1. unfold moment_unix. cbv zeta.
  unfold bind at 1.
  destruct (transform _ (width, height) (tick w)) as [[[output file2]|e] w2];
    [|reflexivity].
  unfold bind at 1, sharp_toFile, bind, await.
  destruct (toFile (buffer file2) _); reflexivity.
Qed.

Lemma forEachSize_records transform bufferData :
  Spec.buffer_only transform ->
  forall sizes file acc w recs file' w',
    forEachSize env opts transform bufferData sizes file acc w
    = (Return (recs, file'), w') ->
    ticks w' = ticks w + List.length sizes
    /\ exists news,
        recs = (acc ++ news)%list
        /\ Forall2
             (fun size r =>
                exists k,
                  ticks w <= k < ticks w'
                  /\ let name :=
                       sized_name file (fst size) (snd size) (clock env k) in
                     r = Spec.derivative file name
                           (Path.resolve (cwd env)
                              [dirname env;
                               Path.resolve (cwd env) [dirname env; localPath opts];
                               name]))
             sizes news.
Proof.
  intros Hpure. induction sizes as [|[width height] rest IH];
    intros file acc w recs file' w' Hrun.
  - cbn in Hrun. injection Hrun as <- <- <-. split; [simpl; lia|].
    exists []. split; [now rewrite app_nil_r | constructor].
  - rewrite forEachSize_cons in Hrun. cbv zeta in Hrun.
    match type of Hrun with
    | context [transform ?f ?sz ?w0] =>
        pose proof (Hpure f sz w0) as Hp;
        destruct (transform f sz w0) as [[[output file2]|e] w2];
        [|discriminate Hrun]
    end.
    destruct Hp as [-> [output' ->]]. cbn [buffer set_buffer] in Hrun.
    destruct (toFile output' _) as [stored|]; [|discriminate Hrun].
    apply IH in Hrun as [Hticks [news [-> Hnews]]].
    cbn [ticks write tick] in Hticks. split; [simpl; lia|].
    eexists (_ :: news). split; [now rewrite <- app_assoc|].
    constructor.
    + exists (ticks w). split; [lia | reflexivity].
    + revert Hnews. apply Forall2_impl. intros size r [k [Hk Hr]].
      exists k. cbn [ticks write tick] in Hk. split; [lia | exact Hr].
Qed.

(** What a call of [processImage] that returns has returned. *)
Lemma processImage_records file w recs file' w' :
  processImage env opts file w = (Return (recs, file'), w') ->
  match fileResizeRatio opts with
  | Some sizes =>
      Forall2
        (fun size r =>
           exists k,
             ticks w < k < ticks w'
             /\ let name :=
                  sized_name file (fst size) (snd size) (clock env k) in
                r = Spec.derivative file name
                      (Path.resolve (cwd env)
                         [dirname env;
                          Path.resolve (cwd env) [dirname env; localPath opts];
                          name]))
        sizes recs
  | None =>
      let name := plain_name file (clock env (ticks w)) in
      recs = [Spec.derivative file name
                (Path.resolve (cwd env) [basePath opts; localPath opts; name])]
  end.
Proof.
  unfold processImage. unfold bind at 1. unfold moment_unix. cbv zeta.
  destruct (fileResizeRatio opts) as [sizes|].
  - intros Hrun.
    assert (Hloop : exists transform,
               Spec.buffer_only transform
               /\ forEachSize env opts transform (buffer file) sizes
                    (set_destination
                       (set_filename file (plain_name file (clock env (ticks w))))
                       (Path.resolve (cwd env)
                          [basePath opts; localPath opts;
                           plain_name file (clock env (ticks w))]))
                    [] (tick w)
                  = (Return (recs, file'), w')).
    { destruct (fileCompression opts).
      - eexists. split; [apply (compressAndResizeImage_buffer_only (imageQuality opts))|].
        exact Hrun.
      - exists resizeImage. split; [apply resizeImage_buffer_only | exact Hrun]. }
    destruct Hloop as [transform [Hpure Hloop]].
    apply (forEachSize_records _ _ Hpure) in Hloop as [_ [news [-> Hnews]]].
    cbn [app]. revert Hnews. apply Forall2_impl.
    intros size r [k [Hk Hr]]. exists k. cbn [ticks tick] in Hk.
    split; [lia | exact Hr].
  - destruct (fileCompression opts).
    + unfold compressImage, sharp_toFile, bind, await, ret. cbn [buffer set_buffer].
      destruct (jpeg _ _) as [output|]; [|discriminate].
      destruct (toFile output _) as [stored|]; [|discriminate].
      intros Hrun. injection Hrun as <- _ _. reflexivity.
    + unfold sharp_toFile, bind, await, ret.
      destruct (toFile _ _) as [stored|]; [|discriminate].
      intros Hrun. injection Hrun as <- _ _. reflexivity.
Qed.


(** C1: a call of [processImage] that returns has produced as many
    records as there are resize ratios when [fileResizeRatio] is
    configured, and one record otherwise, whatever [fileCompression] is. *)
Theorem processImage_record_count file w recs file' w' :
  processImage env opts file w = (Return (recs, file'), w') ->
  List.length recs
  = match fileResizeRatio opts with
    | Some sizes => List.length sizes
    | None => 1
    end.
Proof.
  intros Hrun. apply processImage_records in Hrun.
  destruct (fileResizeRatio opts) as [sizes|].
  - symmetry. exact (Forall2_length Hrun).
  - cbv zeta in Hrun. now rewrite Hrun.
Qed.

(** C8: the record [processImage] returns for the resize ratio (width,
    height) is named [{field}_{width}x{height}_{timestamp}.jpeg], and
    without resize ratios its one record is named
    [{field}_{timestamp}.jpeg]; the timestamp is a reading of the clock
    made during the call. *)
Theorem processImage_names file w recs file' w' :
  processImage env opts file w = (Return (recs, file'), w') ->
  match fileResizeRatio opts with
  | Some sizes =>
      Forall2
        (fun '(width, height) r =>
           exists k,
             ticks w <= k < ticks w'
             /\ FileData.filename r
                = fieldname file ++ "_" ++ JsString.of_number width ++ "x"
                    ++ JsString.of_number height ++ "_"
                    ++ JsString.of_number (clock env k) ++ ".jpeg")
        sizes recs
  | None =>
      exists r k,
        recs = [r]
        /\ ticks w <= k < ticks w'
        /\ FileData.filename r
           = fieldname file ++ "_" ++ JsString.of_number (clock env k) ++ ".jpeg"
  end.
Proof.
  intros Hrun. pose proof (processImage_records _ _ _ _ _ Hrun) as Hrecs.
  destruct (fileResizeRatio opts) as [sizes|] eqn:Hratio.
  - revert Hrecs. apply Forall2_impl.
    intros [width height] r [k [Hk Hr]]. exists k. split; [lia|].
    cbv zeta in Hr. rewrite Hr. reflexivity.
  - cbv zeta in Hrecs. eexists _, (ticks w). split; [exact Hrecs|].
    split; [|reflexivity].
    revert Hrun. unfold processImage. unfold bind at 1. unfold moment_unix.
    cbv zeta. rewrite Hratio.
    destruct (fileCompression opts).
    + unfold compressImage, sharp_toFile, bind, await, ret. cbn [buffer set_buffer].
      destruct (jpeg _ _) as [output|]; [|discriminate].
      destruct (toFile output _) as [stored|]; [|discriminate].
      intros Hrun. injection Hrun as _ _ <-. simpl. lia.
    + unfold sharp_toFile, bind, await, ret.
      destruct (toFile _ _) as [stored|]; [|discriminate].
      intros Hrun. injection Hrun as _ _ <-. simpl. lia.
Qed.

(** Without resize ratios the record carries the destination computed
    from [basePath] (lines 153-157). *)
Lemma processImage_destination_without_ratios file w recs file' w' :
  fileResizeRatio opts = None ->
  processImage env opts file w = (Return (recs, file'), w') ->
  exists r,
    recs = [r]
    /\ FileData.destination r
       = Path.resolve (cwd env)
           [basePath opts; localPath opts; FileData.filename r].
Proof.
  intros Hnone Hrun. apply processImage_records in Hrun.
  rewrite Hnone in Hrun. cbv zeta in Hrun. eexists. split; [exact Hrun|].
  reflexivity.
Qed.

(** In the resize loops the record carries a destination computed from
    [__dirname]; [basePath] has no part in it (lines 171-175, 201-205). *)
Lemma processImage_destination_with_ratios file w recs file' w' sizes :
  fileResizeRatio opts = Some sizes ->
  processImage env opts file w = (Return (recs, file'), w') ->
  Forall
    (fun r =>
       FileData.destination r
       = Path.resolve (cwd env)
           [dirname env;
            Path.resolve (cwd env) [dirname env; localPath opts];
            FileData.filename r])
    recs.
Proof.
  intros Hsome Hrun. apply processImage_records in Hrun.
  rewrite Hsome in Hrun. clear Hsome.
  induction Hrun as [|size r sizes' recs' [k [_ Hr]] _ IH]; constructor.
  - cbv zeta in Hr. now rewrite Hr.
  - exact IH.
Qed.

(** C2 (as amended): with [fileCompression] false and no
    [fileResizeRatio], [processImage] returns exactly one record and
    transforms nothing; it hands the original bytes to [sharp]'s file
    writer, and what that writer stores for them is the one thing written,
    at the record's destination. The stored bytes are the input bytes
    when, and only when, the writer stores its input unchanged. *)
Theorem processImage_passthrough file w stored :
  fileCompression opts = false ->
  fileResizeRatio opts = None ->
  let name :=
    fieldname file ++ "_" ++ JsString.of_number (clock env (ticks w)) ++ ".jpeg" in
  let dest := Path.resolve (cwd env) [basePath opts; localPath opts; name] in
  toFile (buffer file) dest = Some stored ->
  exists r file',
    processImage env opts file w
    = (Return ([r], file'),
       {| ticks := S (ticks w); disk := (disk w ++ [(dest, stored)])%list |})
    /\ FileData.destination r = dest
    /\ buffer file' = buffer file
    /\ (read_file (disk w ++ [(dest, stored)])%list dest = Some (buffer file)
        <-> stored = buffer file).
Proof.
  intros Hc Hr name dest Hstored. subst name dest.
  unfold processImage. unfold bind at 1. unfold moment_unix. cbv zeta.
  rewrite Hc, Hr. unfold sharp_toFile, bind, await, ret, plain_name.
  cbn [buffer set_destination set_filename fieldname]. rewrite Hstored.
  eexists _, _. split; [reflexivity|].
  split; [reflexivity|]. split; [reflexivity|].
  rewrite read_file_last. split; [now intros [= ->] | now intros ->].
Qed.

End ProcessImageFacts.

(** ** A whole request *)

Section UploadFilesFacts.

Import UploadManager.
Context `{Sharp}.
Variable env : Env.
Variable opts : UploadOptions.

Lemma processImage_ticks file w r w' :
  processImage env opts file w = (Return r, w') -> ticks w < ticks w'.
Proof.
  unfold processImage. unfold bind at 1. unfold moment_unix. cbv zeta.
  destruct (fileResizeRatio opts) as [sizes|].
  - intros Hrun. destruct r as [recs file'].
    assert (Hloop : exists transform f,
               Spec.buffer_only transform
               /\ forEachSize env opts transform (buffer file) sizes f [] (tick w)
                  = (Return (recs, file'), w')).
    { destruct (fileCompression opts).
      - eexists _, _.
        split; [apply (compressAndResizeImage_buffer_only (imageQuality opts))|].
        exact Hrun.
      - exists resizeImage. eexists.
        split; [apply resizeImage_buffer_only | exact Hrun]. }
    destruct Hloop as [transform [f [Hpure Hloop]]].
    apply (forEachSize_records _ _ _ _ Hpure) in Hloop as [Hticks _].
    cbn [ticks tick] in Hticks. lia.
  - destruct (fileCompression opts).
    + unfold compressImage, sharp_toFile, bind, await, ret. cbn [buffer set_buffer].
      destruct (jpeg _ _) as [output|]; [|discriminate].
      destruct (toFile output _) as [stored|]; [|discriminate].
      intros Hrun. injection Hrun as _ <-. simpl. lia.
    + unfold sharp_toFile, bind, await, ret.
      destruct (toFile _ _) as [stored|]; [|discriminate].
      intros Hrun. injection Hrun as _ <-. simpl. lia.
Qed.

(** Whatever the filter lets through is what came in. *)
Lemma multer_any_accepts req files :
  multer_any opts req = Some (inr files) -> files = req.
Proof.
  revert files. induction req as [|part rest IH]; intros files; simpl.
  - now intros [= <-].
  - destruct (fileFilter opts part) as [[|err]|]; try discriminate.
    destruct (multer_any opts rest) as [[err|files0]|]; try discriminate.
    intros [= <-]. f_equal. now apply IH.
Qed.

(** One refused part ends the decoding with the filter's error. *)
Lemma multer_any_rejects req part filetypes :
  In part req ->
  RegExp.create (filter_pattern opts) = Some filetypes ->
  RegExp.test filetypes (Spec.extension (originalname part)) = false ->
  RegExp.test filetypes (mimetype part) = false ->
  multer_any opts req = Some (inl (Response 400)).
Proof.
  intros Hin Hcreate Hext Hmime.
  induction req as [|x rest IH]; [destruct Hin|]. simpl.
  assert (Hx : fileFilter opts x = Some Accept
               \/ fileFilter opts x = Some (Reject (Response 400))).
  { unfold fileFilter. rewrite Hcreate.
    destruct (_ || _); [now left | now right]. }
  destruct Hin as [-> | Hin].
  - unfold fileFilter. rewrite Hcreate. fold (Spec.extension (originalname part)).
    now rewrite Hext, Hmime.
  - destruct Hx as [-> | ->]; [|reflexivity].
    now rewrite (IH Hin).
Qed.

Lemma passthrough_name_extension file now :
  passthrough_name file now
  = fieldname file ++ "_" ++ JsString.of_number now ++ "."
      ++ Spec.extension (originalname file).
Proof.
  unfold passthrough_name, Spec.extension.
  destruct (pop_some (JsString.split "." (originalname file))
              (split_not_nil "." (originalname file))) as [x ->].
  reflexivity.
Qed.

(** The loop over [req.files], file by file. *)
Lemma forEachFile_groups files : forall acc w data files' w',
  forEachFile env opts files acc w = (Return (data, files'), w') ->
  ticks w <= ticks w'
  /\ exists groups,
      data = (acc ++ List.concat groups)%list
      /\ Forall2
           (fun file group =>
              if Spec.is_image file then
                exists w1 w2 file2,
                  processImage env opts file w1 = (Return (group, file2), w2)
              else group = [])
           files groups
      /\ Forall2
           (fun file file2 =>
              Spec.is_image file = false ->
              exists k,
                ticks w <= k < ticks w'
                /\ file2
                   = set_contenttype
                       (set_filename file (passthrough_name file (clock env k)))
                       (mimetype file))
           files files'.
Proof.
  induction files as [|file rest IH]; intros acc w data files' w' Hrun.
  - cbn in Hrun. injection Hrun as <- <- <-. split; [lia|].
    exists []. simpl. rewrite app_nil_r. repeat constructor.
  - cbn [forEachFile] in Hrun. fold (Spec.is_image file) in Hrun.
    destruct (Spec.is_image file) eqn:Himg.
    + unfold bind at 1 in Hrun.
      destruct (processImage env opts file w) as [[[group file2]|e] w1] eqn:Hp;
        [|discriminate Hrun].
      unfold bind at 1 in Hrun.
      destruct (forEachFile env opts rest (acc ++ group) w1)
        as [[[arr rest']|e] w2] eqn:Hrest; [|discriminate Hrun].
      cbn in Hrun. injection Hrun as <- <- <-.
      apply IH in Hrest as [Hticks [groups [-> [Hgroups Hfiles]]]].
      apply processImage_ticks in Hp as Hlt.
      split; [lia|]. exists (group :: groups). simpl.
      split; [now rewrite app_assoc|]. split.
      * constructor; [|exact Hgroups]. rewrite Himg. now exists w, w1, file2.
      * constructor; [intros Hno; congruence|].
        revert Hfiles. apply Forall2_impl. intros f f2 Hf Hno.
        destruct (Hf Hno) as [k [Hk ->]]. exists k. split; [lia | reflexivity].
    + unfold bind at 1, moment_unix in Hrun. cbv zeta in Hrun.
      unfold bind at 1 in Hrun.
      destruct (forEachFile env opts rest acc (tick w))
        as [[[arr rest']|e] w2] eqn:Hrest; [|discriminate Hrun].
      cbn in Hrun. injection Hrun as <- <- <-.
      apply IH in Hrest as [Hticks [groups [-> [Hgroups Hfiles]]]].
      cbn [ticks tick] in Hticks.
      split; [lia|]. exists ([] :: groups). simpl.
      split; [reflexivity|]. split.
      * constructor; [|exact Hgroups]. now rewrite Himg.
      * constructor.
        -- intros _. exists (ticks w). split; [lia | reflexivity].
        -- revert Hfiles. apply Forall2_impl. intros f f2 Hf Hno.
           destruct (Hf Hno) as [k [Hk ->]]. exists k.
           cbn [ticks tick] in Hk. split; [lia | reflexivity].
Qed.

(** A call of [uploadFiles] that succeeds has run the loop over the
    request's parts as they came. *)
Lemma uploadFiles_success req w data code w' :
  uploadFiles env opts req w = Some (Success data code, w') ->
  code = 200%Z
  /\ exists files', forEachFile env opts req [] w = (Return (data, files'), w').
Proof.
  unfold uploadFiles.
  destruct (multer_any opts req) as [[err|files]|] eqn:Hm; try discriminate.
  apply multer_any_accepts in Hm. subst files.
  destruct (forEachFile env opts req [] w) as [[[arr files']|e] w1];
    [|discriminate].
  intros [= <- <- <-]. split; [reflexivity | now exists files'].
Qed.

(** In terms of the pattern: when the filter's pattern is inside of the
    fragment and matches neither the extension nor the MIME type of some
    part of the request, [uploadFiles] calls the callback with the error
    [{ data: {}, code: 400 }] and nothing else happens. *)
Lemma uploadFiles_refuses_request req w part filetypes :
  In part req ->
  RegExp.create (filter_pattern opts) = Some filetypes ->
  RegExp.test filetypes (Spec.extension (originalname part)) = false ->
  RegExp.test filetypes (mimetype part) = false ->
  uploadFiles env opts req w = Some (Failure (Response 400), w).
Proof.
  intros Hin Hcreate Hext Hmime. unfold uploadFiles.
  now rewrite (multer_any_rejects req part filetypes Hin Hcreate Hext Hmime).
Qed.


(** C7: the records a successful [uploadFiles] hands over are the
    concatenation of one group per part of the request, in the order of
    the request; the group of an image holds its derivatives in the order
    of the resize ratios (its one derivative when there are none), the
    group of another file is empty. *)
Theorem uploadFiles_order req w data code w' :
  uploadFiles env opts req w = Some (Success data code, w') ->
  exists groups,
    data = List.concat groups
    /\ Forall2
         (fun file group =>
            if Spec.is_image file then
              match fileResizeRatio opts with
              | Some sizes =>
                  Forall2
                    (fun '(width, height) r =>
                       Spec.derived_from file r
                       /\ exists now,
                           FileData.filename r
                           = fieldname file ++ "_" ++ JsString.of_number width
                               ++ "x" ++ JsString.of_number height ++ "_"
                               ++ JsString.of_number now ++ ".jpeg")
                    sizes group
              | None => exists r, group = [r] /\ Spec.derived_from file r
              end
            else group = [])
         req groups.
Proof.
  intros Hrun. apply uploadFiles_success in Hrun as [_ [files' Hloop]].
  apply forEachFile_groups in Hloop as [_ [groups [-> [Hgroups _]]]].
  exists groups. split; [reflexivity|].
  revert Hgroups. apply Forall2_impl. intros file group.
  destruct (Spec.is_image file); [|exact (fun Hg => Hg)].
  intros [w1 [w2 [file2 Hp]]]. apply processImage_records in Hp.
  destruct (fileResizeRatio opts) as [sizes|].
  - revert Hp. apply Forall2_impl. intros [width height] r [k [_ Hr]].
    cbv zeta in Hr. subst r. split; [now repeat split|].
    now exists (clock env k).
  - cbv zeta in Hp. subst group. eexists. split; [reflexivity|].
    now repeat split.
Qed.

(** C6 (as amended): after a successful [uploadFiles], every part that is
    not an image has been given the name
    [{field}_{timestamp}.{originalExtension}] and its MIME type as
    [contenttype], on the part itself; it has no record: the records
    handed over all come from images. *)
Theorem uploadFiles_records_images_only req w data code w' :
  uploadFiles env opts req w = Some (Success data code, w') ->
  Forall (fun r => JsString.startsWith "image/" (FileData.mimetype r) = true) data
  /\ exists files',
      forEachFile env opts req [] w = (Return (data, files'), w')
      /\ Forall2
           (fun file file2 =>
              Spec.is_image file = false ->
              exists k,
                ticks w <= k < ticks w'
                /\ filename file2
                   = Some (fieldname file ++ "_"
                             ++ JsString.of_number (clock env k) ++ "."
                             ++ Spec.extension (originalname file))
                /\ contenttype file2 = Some (mimetype file))
           req files'.
Proof.
  intros Hrun. apply uploadFiles_success in Hrun as [_ [files' Hloop]].
  pose proof (forEachFile_groups _ _ _ _ _ _ Hloop)
    as [_ [groups [-> [Hgroups Hfiles]]]].
  split.
  - simpl. clear Hloop Hfiles.
    induction Hgroups as [|file group req' groups' Hg _ IH]; [constructor|].
    simpl. apply Forall_app. split; [|exact IH].
    destruct (Spec.is_image file) eqn:Himg; [|subst group; constructor].
    destruct Hg as [w1 [w2 [file2 Hp]]]. apply processImage_records in Hp.
    destruct (fileResizeRatio opts) as [sizes|].
    + clear -Hp Himg. induction Hp as [|size r sizes' group' [k [_ Hr]] _ IHp];
        constructor; [|exact IHp].
      cbv zeta in Hr. subst r. exact Himg.
    + cbv zeta in Hp. subst group. constructor; [exact Himg | constructor].
  - exists files'. split; [exact Hloop|].
    revert Hfiles. apply Forall2_impl. intros file file2 Hf Hno.
    destruct (Hf Hno) as [k [Hk ->]]. exists k. split; [exact Hk|].
    split; [|reflexivity].
    cbn [filename set_contenttype set_filename].
    now rewrite passthrough_name_extension.
Qed.

End UploadFilesFacts.

(** ** Runs on the sample data *)

Section Runs.

Import UploadManager.
#[local] Existing Instance Demo.toy_sharp.

(** The README's two ratios on one PNG: two records. *)
Lemma processImage_record_count_witness :
  processImage Demo.env Demo.readme_manager Demo.png_avatar Demo.world
  = (Return (Demo.readme_records, Demo.readme_file), Demo.readme_world)
  /\ List.length Demo.readme_records = 2.
Proof.
  split; [reflexivity|].
  exact (@processImage_record_count Demo.toy_sharp Demo.env Demo.readme_manager
           Demo.png_avatar Demo.world
           Demo.readme_records Demo.readme_file Demo.readme_world eq_refl).
Defined.

(** Their names. *)
Lemma processImage_names_witness :
  processImage Demo.env Demo.readme_manager Demo.png_avatar Demo.world
  = (Return (Demo.readme_records, Demo.readme_file), Demo.readme_world)
  /\ Forall2
       (fun '(width, height) r =>
          exists k,
            0 <= k < 3
            /\ FileData.filename r
               = "avatar" ++ "_" ++ JsString.of_number width ++ "x"
                   ++ JsString.of_number height ++ "_"
                   ++ JsString.of_number (clock Demo.env k) ++ ".jpeg")
       [(100, 100)%Z; (200, 200)%Z] Demo.readme_records.
Proof.
  split; [reflexivity|].
  exact (@processImage_names Demo.toy_sharp Demo.env Demo.readme_manager
           Demo.png_avatar Demo.world
           Demo.readme_records Demo.readme_file Demo.readme_world eq_refl).
Defined.

(** No options, one PNG: one record, one write, of what the toy writer
    stores. *)
Lemma processImage_passthrough_witness :
  exists r file',
    processImage Demo.env Demo.plain_manager Demo.png_avatar Demo.world
    = (Return ([r], file'), Demo.plain_world)
    /\ FileData.destination r = "/home/public/avatar_1700000000.jpeg"
    /\ buffer file' = buffer Demo.png_avatar
    /\ (read_file (disk Demo.plain_world) "/home/public/avatar_1700000000.jpeg"
        = Some (buffer Demo.png_avatar)
        <-> ["J"; "1"; "2"; "3"]%byte = buffer Demo.png_avatar).
Proof.
  exact (@processImage_passthrough Demo.toy_sharp Demo.env Demo.plain_manager
           Demo.png_avatar Demo.world ["J"; "1"; "2"; "3"]%byte
           eq_refl eq_refl eq_refl).
Defined.

(** C2, counterexample: no compression, no resize ratios, a PNG comes in.
    One record is returned, and the file at its destination holds the
    writer's JPEG encoding, not the bytes that came in. *)
Lemma processImage_passthrough_reencodes :
  processImage Demo.env Demo.plain_manager Demo.png_avatar Demo.world
  = (Return ([Demo.plain_record], Demo.plain_file), Demo.plain_world)
  /\ read_file (disk Demo.plain_world) (FileData.destination Demo.plain_record)
     = Some ["J"; "1"; "2"; "3"]%byte
  /\ read_file (disk Demo.plain_world) (FileData.destination Demo.plain_record)
     <> Some (buffer Demo.png_avatar).
Proof. split; [reflexivity | split; [reflexivity | discriminate]]. Qed.

(** C3: with [basePath] [/srv/app], [localPath] [uploads] and one resize
    ratio, the record's destination lies under [__dirname]
    ([/opt/pkg/dist]), while [resolve(basePath, localPath, fileName)] lies
    under [/srv/app]. *)
Theorem resize_destination_ignores_basePath :
  let opts := constructor Demo.env Demo.resize_under_srv in
  exists r file' w',
    processImage Demo.env opts Demo.png_avatar Demo.world
    = (Return ([r], file'), w')
    /\ FileData.destination r
       = "/opt/pkg/dist/uploads/avatar_100x100_1700000001.jpeg"
    /\ Path.resolve (cwd Demo.env)
         [basePath opts; localPath opts; FileData.filename r]
       = "/srv/app/uploads/avatar_100x100_1700000001.jpeg".
Proof.
  cbv zeta. eexists _, _, _. split; [vm_compute; reflexivity|].
  split; reflexivity.
Qed.



(** Two images under the README's options: two groups of two records. *)
Lemma uploadFiles_order_witness :
  uploadFiles Demo.env Demo.readme_manager Demo.two_images Demo.world
  = Some (Success Demo.two_images_records 200, Demo.two_images_world)
  /\ exists groups,
      Demo.two_images_records = List.concat groups
      /\ Forall2
           (fun file group =>
              if Spec.is_image file then
                Forall2
                  (fun '(width, height) r =>
                     Spec.derived_from file r
                     /\ exists now,
                         FileData.filename r
                         = fieldname file ++ "_" ++ JsString.of_number width
                             ++ "x" ++ JsString.of_number height ++ "_"
                             ++ JsString.of_number now ++ ".jpeg")
                  [(100, 100)%Z; (200, 200)%Z] group
              else group = [])
           Demo.two_images groups.
Proof.
  split; [reflexivity|].
  exact (@uploadFiles_order Demo.toy_sharp Demo.env Demo.readme_manager
           Demo.two_images Demo.world
           Demo.two_images_records 200 Demo.two_images_world eq_refl).
Defined.

(** A PDF and a PNG: one record, the PNG's. *)
Lemma uploadFiles_records_images_only_witness :
  uploadFiles Demo.env Demo.pdf_manager Demo.mixed_request Demo.world
  = Some (Success Demo.mixed_records 200, Demo.mixed_world)
  /\ Forall (fun r => JsString.startsWith "image/" (FileData.mimetype r) = true)
       Demo.mixed_records
  /\ exists files',
      forEachFile Demo.env Demo.pdf_manager Demo.mixed_request [] Demo.world
      = (Return (Demo.mixed_records, files'), Demo.mixed_world)
      /\ Forall2
           (fun file file2 =>
              Spec.is_image file = false ->
              exists k,
                0 <= k < 2
                /\ filename file2
                   = Some (fieldname file ++ "_"
                             ++ JsString.of_number (clock Demo.env k) ++ "."
                             ++ Spec.extension (originalname file))
                /\ contenttype file2 = Some (mimetype file))
           Demo.mixed_request files'.
Proof.
  split; [reflexivity|].
  exact (@uploadFiles_records_images_only Demo.toy_sharp Demo.env Demo.pdf_manager
           Demo.mixed_request Demo.world
           Demo.mixed_records 200 Demo.mixed_world eq_refl).
Defined.

(** C6, counterexample: a request whose one part is a PDF succeeds, the
    PDF is given its pass-through name, and the records handed over are
    none. *)
Lemma uploadFiles_pdf_has_no_record :
  Spec.is_image Demo.pdf_report = false
  /\ uploadFiles Demo.env Demo.pdf_manager [Demo.pdf_report] Demo.world
     = Some (Success [] 200, {| ticks := 1; disk := [] |})
  /\ forEachFile Demo.env Demo.pdf_manager [Demo.pdf_report] [] Demo.world
     = (Return
          ([],
           [ {| fieldname := "doc"; originalname := "report.pdf";
                encoding := "7bit"; mimetype := "application/pdf";
                buffer := buffer Demo.pdf_report;
                filename := Some "doc_1700000000.pdf";
                destination := None;
                contenttype := Some "application/pdf" |} ]),
        {| ticks := 1; disk := [] |}).
Proof. split; [reflexivity | split; reflexivity]. Qed.

End Runs.


(* ===================================================================== *)
(** * Further properties of the class *)
(* ===================================================================== *)

(** ** The resize loops, turn by turn *)

Section LoopFacts.

Import UploadManager.
Context `{Sharp}.
Variable env : Env.
Variable opts : UploadOptions.

Lemma compressAndResizeImage_lifts (q : Z) :
  Plan.lifts (fun '(width, height) data => resize_jpeg width height q data)
             (fun f size => compressAndResizeImage f size q).
Proof.
  intros file [width height] w. unfold compressAndResizeImage, bind, await, ret.
  now destruct (resize_jpeg width height q (buffer file)).
Qed.

Lemma resizeImage_lifts :
  Plan.lifts (fun '(width, height) data => resize width height data) resizeImage.
Proof.
  intros file [width height] w. unfold resizeImage, bind, await, ret.
  now destruct (resize width height (buffer file)).
Qed.

Lemma sized_records_same_part a b sizes : forall tick,
  Plan.same_part a b ->
  Plan.sized_records env opts a sizes tick = Plan.sized_records env opts b sizes tick.
Proof.
  induction sizes as [|[width height] rest IH]; intros tick Hab; [reflexivity|].
  simpl. rewrite (IH _ Hab). destruct Hab as [Hf [Ho [He Hm]]].
  unfold Spec.derivative, sized_name. now rewrite Hf, Ho, He, Hm.
Qed.

(** A resize loop that returns. *)
Lemma forEachSize_return f transform bufferData :
  Plan.lifts f transform ->
  forall sizes file acc w recs file' w',
    forEachSize env opts transform bufferData sizes file acc w
    = (Return (recs, file'), w') ->
    recs = (acc ++ Plan.sized_records env opts file sizes (ticks w))%list
    /\ ticks w' = ticks w + List.length sizes
    /\ Plan.same_part file' file
    /\ contenttype file' = contenttype file
    /\ buffer file' = Plan.left_in_buffer f bufferData sizes (buffer file)
    /\ exists added,
        disk w' = (disk w ++ added)%list
        /\ map fst added
           = map FileData.destination
               (Plan.sized_records env opts file sizes (ticks w))
        /\ Forall2
             (fun size written =>
                exists output,
                  f size bufferData = Some output
                  /\ toFile output (fst written) = Some (snd written))
             sizes added.
Proof.
  intros Hlift. induction sizes as [|[width height] rest IH];
    intros file acc w recs file' w' Hrun.
  - cbn in Hrun. injection Hrun as <- <- <-.
    split; [now rewrite app_nil_r|]. split; [simpl; lia|].
    split; [now repeat split|]. split; [reflexivity|]. split; [reflexivity|].
    exists []. split; [now rewrite app_nil_r|]. split; [reflexivity | constructor].
  - rewrite forEachSize_cons in Hrun. cbv zeta in Hrun.
    rewrite Hlift in Hrun. cbn [buffer set_buffer] in Hrun.
    destruct (f (width, height) bufferData) as [output|] eqn:Hf;
      [|discriminate Hrun].
    cbn [buffer set_buffer] in Hrun.
    destruct (toFile output _) as [stored|] eqn:Hst; [|discriminate Hrun].
    apply IH in Hrun
      as [-> [Hticks [Hsame [Hct [Hbuf [added [Hdisk [Hdest Hall]]]]]]]].
    cbn [ticks write tick disk] in Hticks, Hdisk.
    match type of Hsame with
    | Plan.same_part _ ?f2 =>
        assert (Hf2 : Plan.same_part f2 file) by (now repeat split)
    end.
    rewrite (sized_records_same_part _ _ _ _ Hf2) in *.
    cbn [ticks write tick].
    split.
    { rewrite <- app_assoc. reflexivity. }
    split; [simpl; lia|].
    split.
    { destruct Hsame as [? [? [? ?]]]. now repeat split. }
    split; [exact Hct|].
    split.
    { rewrite Hbuf. unfold Plan.left_in_buffer. cbn [fold_left buffer set_buffer].
      now rewrite Hf. }
    eexists ((_, stored) :: added). split.
    { rewrite Hdisk, <- app_assoc. reflexivity. }
    split.
    { cbn [map fst Plan.sized_records]. now rewrite Hdest. }
    constructor; [|exact Hall]. exists output. split; [exact Hf | exact Hst].
Qed.

Lemma sized_records_length file sizes : forall tick,
  List.length (Plan.sized_records env opts file sizes tick) = List.length sizes.
Proof.
  induction sizes as [|[width height] rest IH]; intros tick; simpl;
    [reflexivity | now rewrite IH].
Qed.

(** A resize loop that throws: the turns before the failing one have
    written their files. *)
Lemma forEachSize_throw f transform bufferData :
  Plan.lifts f transform ->
  forall sizes file acc w e w',
    forEachSize env opts transform bufferData sizes file acc w = (Throw e, w') ->
    e = SharpError
    /\ ticks w <= ticks w'
    /\ exists added,
        disk w' = (disk w ++ added)%list
        /\ List.length added < List.length sizes
        /\ map fst added
           = map FileData.destination
               (firstn (List.length added)
                  (Plan.sized_records env opts file sizes (ticks w))).
Proof.
  intros Hlift. induction sizes as [|[width height] rest IH];
    intros file acc w e w' Hrun.
  - discriminate Hrun.
  - rewrite forEachSize_cons in Hrun. cbv zeta in Hrun.
    rewrite Hlift in Hrun. cbn [buffer set_buffer] in Hrun.
    destruct (f (width, height) bufferData) as [output|].
    + cbn [buffer set_buffer] in Hrun.
      destruct (toFile output _) as [stored|].
      * apply IH in Hrun as [-> [Hticks [added [Hdisk [Hlen Hdest]]]]].
        cbn [ticks write tick disk] in Hticks, Hdisk, Hdest.
        match type of Hdest with
        | context [Plan.sized_records env opts ?f2 rest _] =>
            assert (Hf2 : Plan.same_part f2 file) by (now repeat split)
        end.
        rewrite (sized_records_same_part _ _ _ _ Hf2) in Hdest.
        split; [reflexivity|]. split; [lia|].
        eexists ((_, stored) :: added). split.
        { rewrite Hdisk, <- app_assoc. reflexivity. }
        split; [simpl; lia|].
        cbn [List.length firstn map fst Plan.sized_records]. now rewrite Hdest.
      * injection Hrun as <- <-. split; [reflexivity|]. split; [simpl; lia|].
        exists []. split; [now rewrite app_nil_r|]. split; [simpl; lia | reflexivity].
    + injection Hrun as <- <-. split; [reflexivity|]. split; [simpl; lia|].
      exists []. split; [now rewrite app_nil_r|]. split; [simpl; lia | reflexivity].
Qed.

Lemma derive_lifts :
  exists transform,
    Plan.lifts (Plan.derive opts) transform
    /\ forall bufferData sizes file acc,
        (if fileCompression opts
         then forEachSize env opts
                (fun f size => compressAndResizeImage f size (imageQuality opts))
                bufferData sizes file acc
         else forEachSize env opts resizeImage bufferData sizes file acc)
        = forEachSize env opts transform bufferData sizes file acc.
Proof.
  unfold Plan.derive. destruct (fileCompression opts).
  - eexists. split; [|reflexivity].
    intros file [width height] w.
    apply (compressAndResizeImage_lifts (imageQuality opts) file (width, height) w).
  - exists resizeImage. split; [|reflexivity].
    intros file [width height] w. apply (resizeImage_lifts file (width, height) w).
Qed.

(** [processImage] unfolded up to its branches. *)
Lemma processImage_branches file w :
  processImage env opts file w
  = let name := plain_name file (clock env (ticks w)) in
    let dest := Path.resolve (cwd env) [basePath opts; localPath opts; name] in
    let named := set_destination (set_filename file name) dest in
    match fileResizeRatio opts with
    | Some sizes =>
        (if fileCompression opts
         then forEachSize env opts
                (fun f size => compressAndResizeImage f size (imageQuality opts))
                (buffer file) sizes named []
         else forEachSize env opts resizeImage (buffer file) sizes named [])
          (tick w)
    | None =>
        if fileCompression opts then
          match jpeg (imageQuality opts) (buffer file) with
          | Some output =>
              match toFile output dest with
              | Some stored =>
                  (Return ([Spec.derivative file name dest],
                           set_buffer (set_buffer named output) output),
                   write dest stored (tick w))
              | None => (Throw SharpError, tick w)
              end
          | None => (Throw SharpError, tick w)
          end
        else
          match toFile (buffer file) dest with
          | Some stored =>
              (Return ([Spec.derivative file name dest], named),
               write dest stored (tick w))
          | None => (Throw SharpError, tick w)
          end
    end.
Proof.
  unfold processImage. unfold bind at 1. unfold moment_unix. cbv zeta.
  destruct (fileCompression opts), (fileResizeRatio opts) as [sizes|];
    try reflexivity.
  - unfold compressImage, sharp_toFile, bind, await, ret. cbn [buffer set_buffer].
    destruct (jpeg _ _) as [output|]; [|reflexivity].
    cbn [buffer set_buffer set_destination set_filename].
    destruct (toFile output _); reflexivity.
  - unfold sharp_toFile, bind, await, ret.
    cbn [buffer set_buffer set_destination set_filename].
    destruct (toFile _ _); reflexivity.
Qed.

(** A call of [processImage] that returns. *)
Lemma processImage_return file w recs file' w' :
  processImage env opts file w = (Return (recs, file'), w') ->
  recs = Plan.expected_records env opts file (ticks w)
  /\ ticks w'
     = S (ticks w)
       + match fileResizeRatio opts with
         | Some sizes => List.length sizes
         | None => 0
         end
  /\ Plan.same_part file' file
  /\ contenttype file' = contenttype file
  /\ exists added,
      disk w' = (disk w ++ added)%list
      /\ map fst added = map FileData.destination recs
      /\ match fileResizeRatio opts with
         | Some sizes =>
             Forall2
               (fun size written =>
                  exists output,
                    Plan.derive opts size (buffer file) = Some output
                    /\ toFile output (fst written) = Some (snd written))
               sizes added
             /\ buffer file'
                = Plan.left_in_buffer (Plan.derive opts) (buffer file) sizes
                    (buffer file)
         | None =>
             exists output stored,
               (if fileCompression opts
                then jpeg (imageQuality opts) (buffer file) = Some output
                else output = buffer file)
               /\ buffer file' = output
               /\ added = [(FileData.destination
                              (Spec.derivative file
                                 (plain_name file (clock env (ticks w)))
                                 (Path.resolve (cwd env)
                                    [basePath opts; localPath opts;
                                     plain_name file (clock env (ticks w))])),
                            stored)]
               /\ toFile output
                    (Path.resolve (cwd env)
                       [basePath opts; localPath opts;
                        plain_name file (clock env (ticks w))])
                  = Some stored
         end.
Proof.
  rewrite processImage_branches. cbv zeta. unfold Plan.expected_records.
  destruct (fileResizeRatio opts) as [sizes|].
  - destruct derive_lifts as [transform [Hlift ->]]. intros Hrun.
    apply (forEachSize_return _ _ _ Hlift) in Hrun
      as [-> [Hticks [Hsame [Hct [Hbuf [added [Hdisk [Hdest Hall]]]]]]]].
    cbn [ticks tick disk buffer set_destination set_filename contenttype]
      in Hticks, Hdisk, Hct, Hbuf.
    match type of Hsame with
    | Plan.same_part _ ?named =>
        assert (Hnamed : Plan.same_part named file) by (now repeat split)
    end.
    rewrite (sized_records_same_part _ _ _ _ Hnamed) in *.
    cbn [app ticks tick].
    split; [reflexivity|]. split; [lia|].
    split; [destruct Hsame as [? [? [? ?]]]; now repeat split|].
    split; [exact Hct|].
    exists added. split; [exact Hdisk|]. split; [exact Hdest|].
    split; [exact Hall | exact Hbuf].
  - destruct (fileCompression opts).
    + destruct (jpeg _ _) as [output|] eqn:Hj; [|discriminate].
      destruct (toFile output _) as [stored|] eqn:Hst; [|discriminate].
      intros Hrun. injection Hrun as <- <- <-.
      split; [reflexivity|]. split; [simpl; lia|].
      split; [now repeat split|]. split; [reflexivity|].
      eexists. split; [reflexivity|]. split; [reflexivity|].
      exists output, stored. now repeat split.
    + destruct (toFile _ _) as [stored|] eqn:Hst; [|discriminate].
      intros Hrun. injection Hrun as <- <- <-.
      split; [reflexivity|]. split; [simpl; lia|].
      split; [now repeat split|]. split; [reflexivity|].
      eexists. split; [reflexivity|]. split; [reflexivity|].
      exists (buffer file), stored. now repeat split.
Qed.

Lemma expected_records_length file tick :
  List.length (Plan.expected_records env opts file tick)
  = match fileResizeRatio opts with
    | Some sizes => List.length sizes
    | None => 1
    end.
Proof.
  unfold Plan.expected_records. destruct (fileResizeRatio opts);
    [apply sized_records_length | reflexivity].
Qed.

(** A call of [processImage] that throws. *)
Lemma processImage_throw file w e w' :
  processImage env opts file w = (Throw e, w') ->
  e = SharpError
  /\ ticks w < ticks w'
  /\ exists added,
      disk w' = (disk w ++ added)%list
      /\ List.length added
         < List.length (Plan.expected_records env opts file (ticks w))
      /\ map fst added
         = map FileData.destination
             (firstn (List.length added)
                (Plan.expected_records env opts file (ticks w))).
Proof.
  rewrite processImage_branches. cbv zeta. rewrite expected_records_length.
  unfold Plan.expected_records.
  destruct (fileResizeRatio opts) as [sizes|].
  - destruct derive_lifts as [transform [Hlift ->]]. intros Hrun.
    apply (forEachSize_throw _ _ _ Hlift) in Hrun
      as [-> [Hticks [added [Hdisk [Hlen Hdest]]]]].
    cbn [ticks tick disk] in Hticks, Hdisk, Hdest.
    match type of Hdest with
    | context [Plan.sized_records env opts ?named sizes _] =>
        assert (Hnamed : Plan.same_part named file) by (now repeat split)
    end.
    rewrite (sized_records_same_part _ _ _ _ Hnamed) in Hdest.
    split; [reflexivity|]. split; [lia|]. now exists added.
  - assert (Hnone : forall e0 : js_error,
               (Throw e0 : outcome (list FileData.t * MulterFile), tick w)
               = (Throw e, w') ->
               e = SharpError ->
               e = SharpError
               /\ ticks w < ticks w'
               /\ exists added : list (string * bytes),
                   disk w' = (disk w ++ added)%list
                   /\ List.length added < 1
                   /\ map fst added
                      = map FileData.destination
                          (firstn (List.length added)
                             [Spec.derivative file
                                (plain_name file (clock env (ticks w)))
                                (Path.resolve (cwd env)
                                   [basePath opts; localPath opts;
                                    plain_name file (clock env (ticks w))])])).
    { intros e0 Heq He. injection Heq as _ <-. split; [exact He|].
      split; [simpl; lia|]. exists [].
      split; [now rewrite app_nil_r|]. split; [simpl; lia | reflexivity]. }
    destruct (fileCompression opts).
    + destruct (jpeg _ _) as [output|].
      * destruct (toFile output _) as [stored|]; [discriminate|].
        intros Hrun. apply (Hnone _ Hrun). now injection Hrun as <-.
      * intros Hrun. apply (Hnone _ Hrun). now injection Hrun as <-.
    + destruct (toFile _ _) as [stored|]; [discriminate|].
      intros Hrun. apply (Hnone _ Hrun). now injection Hrun as <-.
Qed.

End LoopFacts.

(** ** The loop over the request, file by file *)

Section RequestFacts.

Import UploadManager.
Context `{Sharp}.
Variable env : Env.
Variable opts : UploadOptions.

Lemma expected_records_same_part a b tick :
  Plan.same_part a b ->
  Plan.expected_records env opts a tick = Plan.expected_records env opts b tick.
Proof.
  intros Hab. unfold Plan.expected_records.
  destruct (fileResizeRatio opts) as [sizes|].
  - now apply sized_records_same_part.
  - destruct Hab as [Hf [Ho [He Hm]]]. cbv zeta.
    unfold Spec.derivative, plain_name. now rewrite Hf, Ho, He, Hm.
Qed.

(** One turn of the loop over [req.files]. *)
Lemma forEachFile_cons file rest acc w :
  forEachFile env opts (file :: rest) acc w
  = if Spec.is_image file then
      match processImage env opts file w with
      | (Return (uploadedImageData, file2), w1) =>
          match forEachFile env opts rest (acc ++ uploadedImageData)%list w1 with
          | (Return (arr, rest'), w2) => (Return (arr, file2 :: rest'), w2)
          | (Throw e, w2) => (Throw e, w2)
          end
      | (Throw e, w1) => (Throw e, w1)
      end
    else
      match forEachFile env opts rest acc (tick w) with
      | (Return (arr, rest'), w2) =>
          (Return
             (arr,
              set_contenttype
                (set_filename file (passthrough_name file (clock env (ticks w))))
                (mimetype file) :: rest'), w2)
      | (Throw e, w2) => (Throw e, w2)
      end.
Proof.
  cbn [forEachFile]. unfold Spec.is_image.
  destruct (JsString.startsWith "image/" (mimetype file)).
  - unfold bind at 1.
    destruct (processImage env opts file w) as [[[data file2]|e] w1]; [|reflexivity].
    unfold bind at 1.
    destruct (forEachFile env opts rest (acc ++ data) w1) as [[[arr rest']|e] w2];
      reflexivity.
  - unfold bind at 1, moment_unix. cbv zeta. unfold bind at 1.
    destruct (forEachFile env opts rest acc (tick w)) as [[[arr rest']|e] w2];
      reflexivity.
Qed.

(** The loop over [req.files] when it returns. *)
Lemma forEachFile_return files : forall acc w data files' w',
  forEachFile env opts files acc w = (Return (data, files'), w') ->
  data = (acc ++ Plan.request_records env opts files (ticks w))%list
  /\ Forall2 Plan.same_part files' files
  /\ exists added,
      disk w' = (disk w ++ added)%list
      /\ map fst added
         = map FileData.destination
             (Plan.request_records env opts files (ticks w)).
Proof.
  induction files as [|file rest IH]; intros acc w data files' w' Hrun.
  - cbn in Hrun. injection Hrun as <- <- <-.
    split; [now rewrite app_nil_r|]. split; [constructor|].
    exists []. split; [now rewrite app_nil_r | reflexivity].
  - rewrite forEachFile_cons in Hrun. cbn [Plan.request_records].
    destruct (Spec.is_image file).
    + destruct (processImage env opts file w) as [[[group file2]|e] w1] eqn:Hp;
        [|discriminate Hrun].
      destruct (forEachFile env opts rest (acc ++ group) w1)
        as [[[arr rest']|e] w2] eqn:Hrest; [|discriminate Hrun].
      injection Hrun as <- <- <-.
      apply processImage_return in Hp
        as [-> [Hticks [Hsame [_ [added1 [Hdisk1 [Hdest1 _]]]]]]].
      apply IH in Hrest as [-> [Hparts [added2 [Hdisk2 Hdest2]]]].
      rewrite Hticks in *.
      split; [now rewrite app_assoc|].
      split; [constructor; assumption|].
      exists (added1 ++ added2)%list. split.
      * rewrite Hdisk2, Hdisk1. now rewrite app_assoc.
      * now rewrite !map_app, Hdest1, Hdest2.
    + destruct (forEachFile env opts rest acc (tick w))
        as [[[arr rest']|e] w2] eqn:Hrest; [|discriminate Hrun].
      injection Hrun as <- <- <-.
      apply IH in Hrest as [-> [Hparts [added [Hdisk Hdest]]]].
      cbn [ticks tick disk] in *.
      split; [reflexivity|].
      split; [constructor; [now repeat split | assumption]|].
      now exists added.
Qed.

(** The loop over [req.files] when it throws: what was written until then
    stays, and belongs to the first records of a run without failure. *)
Lemma forEachFile_throw files : forall acc w e w',
  forEachFile env opts files acc w = (Throw e, w') ->
  e = SharpError
  /\ exists added,
      disk w' = (disk w ++ added)%list
      /\ List.length added
         < List.length (Plan.request_records env opts files (ticks w))
      /\ map fst added
         = map FileData.destination
             (firstn (List.length added)
                (Plan.request_records env opts files (ticks w))).
Proof.
  induction files as [|file rest IH]; intros acc w e w' Hrun.
  - discriminate Hrun.
  - rewrite forEachFile_cons in Hrun. cbn [Plan.request_records].
    destruct (Spec.is_image file).
    + destruct (processImage env opts file w) as [[[group file2]|e1] w1] eqn:Hp.
      * destruct (forEachFile env opts rest (acc ++ group) w1)
          as [[[arr rest']|e2] w2] eqn:Hrest; [discriminate Hrun|].
        injection Hrun as <- <-.
        apply processImage_return in Hp
          as [-> [Hticks [_ [_ [added1 [Hdisk1 [Hdest1 _]]]]]]].
        apply IH in Hrest as [-> [added2 [Hdisk2 [Hlen2 Hdest2]]]].
        rewrite Hticks in *.
        assert (Hlen1 : List.length added1
                        = List.length (Plan.expected_records env opts file (ticks w))).
        { rewrite <- (length_map fst added1), Hdest1. apply length_map. }
        split; [reflexivity|]. exists (added1 ++ added2)%list.
        split; [rewrite Hdisk2, Hdisk1; now rewrite app_assoc|].
        rewrite !length_app. split; [lia|].
        rewrite Hlen1, firstn_app_2, !map_app, Hdest1, Hdest2. reflexivity.
      * injection Hrun as <- <-.
        apply processImage_throw in Hp as [-> [_ [added [Hdisk [Hlen Hdest]]]]].
        split; [reflexivity|]. exists added. split; [exact Hdisk|].
        rewrite length_app. split; [lia|].
        rewrite firstn_app.
        replace (List.length added
                 - List.length (Plan.expected_records env opts file (ticks w)))
          with 0 by lia.
        cbn [firstn]. now rewrite app_nil_r.
    + destruct (forEachFile env opts rest acc (tick w))
        as [[[arr rest']|e2] w2] eqn:Hrest; [discriminate Hrun|].
      injection Hrun as <- <-.
      apply IH in Hrest as [-> [added [Hdisk [Hlen Hdest]]]].
      split; [reflexivity | now exists added].
Qed.

(** What [this.upload.any()] answers. *)
Lemma multer_any_cases req :
  match multer_any opts req with
  | Some (inl err) =>
      err = Response 400
      /\ exists part,
          In part req /\ fileFilter opts part = Some (Reject (Response 400))
  | Some (inr files) => files = req /\ Forall (Plan.accepted opts) req
  | None => True
  end.
Proof.
  induction req as [|part rest IH]; simpl.
  - split; [reflexivity | constructor].
  - destruct (fileFilter opts part) as [[|err]|] eqn:Hf; [| |exact I].
    + destruct (multer_any opts rest) as [[err|files]|]; [| |exact I].
      * destruct IH as [-> [p [Hin Hp]]]. split; [reflexivity|].
        exists p. split; [now right | exact Hp].
      * destruct IH as [-> Hall]. split; [reflexivity|].
        constructor; [exact Hf | exact Hall].
    + assert (Herr : err = Response 400).
      { revert Hf. unfold fileFilter.
        destruct (RegExp.create _); [|discriminate].
        destruct (_ || _); [discriminate | now intros [= <-]]. }
      subst err. split; [reflexivity|].
      exists part. split; [now left | exact Hf].
Qed.

Lemma multer_any_accepted req :
  Forall (Plan.accepted opts) req -> multer_any opts req = Some (inr req).
Proof.
  induction 1 as [|part rest Hpart _ IH]; simpl; [reflexivity|].
  unfold Plan.accepted in Hpart. now rewrite Hpart, IH.
Qed.

End RequestFacts.

(** ** What a request leaves behind *)

Section Guarantees.

Import UploadManager.
Context `{Sharp}.
Variable env : Env.
Variable opts : UploadOptions.

Lemma uploadFiles_cases req w cb w' :
  uploadFiles env opts req w = Some (cb, w') ->
  (cb = Failure (Response 400) /\ w' = w
   /\ exists part,
       In part req /\ fileFilter opts part = Some (Reject (Response 400)))
  \/ (Forall (Plan.accepted opts) req
      /\ exists o,
          forEachFile env opts req [] w = (o, w')
          /\ cb = match o with
                  | Return (data, _) => Success data 200
                  | Throw e => Failure e
                  end).
Proof.
  unfold uploadFiles. pose proof (multer_any_cases opts req) as Hm.
  destruct (multer_any opts req) as [[err|files]|]; [| |discriminate].
  - destruct Hm as [-> Hpart]. intros [= <- <-]. left. now repeat split.
  - destruct Hm as [-> Hall]. intros Hrun. right. split; [exact Hall|].
    destruct (forEachFile env opts req [] w) as [[[data files']|e] w1];
      injection Hrun as <- <-; eexists; split; reflexivity.
Qed.

(** X1: after a successful [uploadFiles], the files written during the call
    are, in order, the destinations of the records handed over: every
    record points to a file that was written, and nothing else was
    written. *)
Theorem uploadFiles_writes_match_records req w data code w' :
  uploadFiles env opts req w = Some (Success data code, w') ->
  exists added,
    disk w' = (disk w ++ added)%list
    /\ map fst added = map FileData.destination data.
Proof.
  intros Hrun. apply uploadFiles_cases in Hrun as [[Hcb _] | [_ [o [Hloop Hcb]]]];
    [discriminate Hcb|].
  destruct o as [[data0 files']|e]; [|discriminate Hcb].
  injection Hcb as ->.
  apply forEachFile_return in Hloop as [-> [_ [added [Hdisk Hdest]]]].
  exists added. split; [exact Hdisk | exact Hdest].
Qed.

(** X2: when [uploadFiles] fails with an error of [sharp], nothing is
    undone: the files written before the failure stay on the disk. They
    are the files of the first records of the run that would have
    succeeded, fewer than all of them, and no record is handed over. *)
Theorem uploadFiles_failure_leaves_files req w w' :
  uploadFiles env opts req w = Some (Failure SharpError, w') ->
  exists added,
    disk w' = (disk w ++ added)%list
    /\ List.length added
       < List.length (Plan.request_records env opts req (ticks w))
    /\ map fst added
       = map FileData.destination
           (firstn (List.length added)
              (Plan.request_records env opts req (ticks w))).
Proof.
  intros Hrun. apply uploadFiles_cases in Hrun as [[Hcb _] | [_ [o [Hloop Hcb]]]];
    [discriminate Hcb|].
  destruct o as [[data0 files']|e]; [discriminate Hcb|].
  apply forEachFile_throw in Hloop as [_ Hadded]. exact Hadded.
Qed.

(** X3: an error object [{ data: {}, code }] reaches the callback only from
    the filter: its code is 400, some part of the request was refused by
    [fileFilter], and nothing was done (no clock read, no file written). *)
Theorem uploadFiles_response_means_refused req w c w' :
  uploadFiles env opts req w = Some (Failure (Response c), w') ->
  c = 400%Z
  /\ w' = w
  /\ exists part,
      In part req /\ fileFilter opts part = Some (Reject (Response 400)).
Proof.
  intros Hrun. apply uploadFiles_cases in Hrun
    as [[Hcb [-> Hpart]] | [_ [o [Hloop Hcb]]]].
  - injection Hcb as ->. now repeat split.
  - destruct o as [[data0 files']|e]; [discriminate Hcb|].
    apply forEachFile_throw in Hloop as [-> _]. discriminate Hcb.
Qed.

(** X4: the records of a successful [uploadFiles] are those of
    [Plan.request_records]: they are fixed by the options, by the field
    name, original name, encoding and MIME type of the parts, and by the
    clock readings, one reading per part and one more per resize ratio of
    an image; the code is 200. *)
Theorem uploadFiles_records_planned req w data code w' :
  uploadFiles env opts req w = Some (Success data code, w') ->
  code = 200%Z
  /\ data = Plan.request_records env opts req (ticks w).
Proof.
  intros Hrun. apply uploadFiles_cases in Hrun as [[Hcb _] | [_ [o [Hloop Hcb]]]];
    [discriminate Hcb|].
  destruct o as [[data0 files']|e]; [|discriminate Hcb].
  injection Hcb as -> ->.
  apply forEachFile_return in Hloop as [-> _]. now split.
Qed.

(** A loop over parts none of which makes [processImage] do anything. *)
Lemma forEachFile_silent files : forall acc w,
  Forall (fun part => Spec.is_image part = true -> fileResizeRatio opts = Some [])
         files ->
  exists files',
    forEachFile env opts files acc w
    = (Return (acc, files'),
       {| ticks := ticks w + List.length files; disk := disk w |}).
Proof.
  induction files as [|file rest IH]; intros acc w Hall.
  - exists []. cbn. destruct w as [t d]. simpl. now rewrite Nat.add_0_r.
  - inversion Hall as [|? ? Hfile Hrest]; subst.
    rewrite forEachFile_cons. destruct (Spec.is_image file).
    + rewrite processImage_branches, (Hfile eq_refl). cbv zeta.
      assert (Hloop : forall transform named,
                 forEachSize env opts transform (buffer file) [] named [] (tick w)
                 = (Return ([], named), tick w)) by reflexivity.
      destruct (fileCompression opts); rewrite Hloop, app_nil_r;
        destruct (IH acc (tick w) Hrest) as [files' ->];
        eexists; cbn [ticks tick disk List.length];
        rewrite <- plus_n_Sm; reflexivity.
    + destruct (IH acc (tick w) Hrest) as [files' ->].
      eexists. cbn [ticks tick disk List.length].
      rewrite <- plus_n_Sm. reflexivity.
Qed.

(** X5: a request all of whose parts pass the filter and none of whose parts
    is an image succeeds with no record and writes nothing; the clock is
    read once per part. In particular the empty request succeeds with
    [{ data: [], code: 200 }]. *)
Theorem uploadFiles_without_images req w :
  Forall (Plan.accepted opts) req ->
  Forall (fun part => Spec.is_image part = false) req ->
  uploadFiles env opts req w
  = Some (Success [] 200,
          {| ticks := ticks w + List.length req; disk := disk w |}).
Proof.
  intros Hacc Hnone. unfold uploadFiles. rewrite (multer_any_accepted _ _ Hacc).
  destruct (forEachFile_silent req [] w) as [files' ->]; [|reflexivity].
  revert Hnone. apply Forall_impl. intros part Hno Hyes. congruence.
Qed.

(** X6: when [fileResizeRatio] is the empty list, every request whose parts
    pass the filter succeeds with no record and writes nothing, images
    included: [sharp] is never asked anything, so even an image it would
    reject goes through. *)
Theorem uploadFiles_empty_ratio_list req w :
  fileResizeRatio opts = Some [] ->
  Forall (Plan.accepted opts) req ->
  uploadFiles env opts req w
  = Some (Success [] 200,
          {| ticks := ticks w + List.length req; disk := disk w |}).
Proof.
  intros Hempty Hacc. unfold uploadFiles. rewrite (multer_any_accepted _ _ Hacc).
  destruct (forEachFile_silent req [] w) as [files' ->]; [|reflexivity].
  revert Hacc. apply Forall_impl. intros part _ _. exact Hempty.
Qed.

(** X7: in the resize loops every derivative is made from the bytes that
    were uploaded, not from the derivative before it: the file written for
    the ratio (width, height) holds what [toFile] stores for the output of
    the resize (with JPEG encoding at [imageQuality] when [fileCompression]
    is set) of the original buffer. When the loop is over, [file.buffer]
    holds the output for the last ratio. *)
Theorem processImage_derives_from_original file w recs file' w' sizes :
  fileResizeRatio opts = Some sizes ->
  processImage env opts file w = (Return (recs, file'), w') ->
  exists added,
    disk w' = (disk w ++ added)%list
    /\ Forall2
         (fun '(width, height) written =>
            exists output,
              (if fileCompression opts
               then resize_jpeg width height (imageQuality opts) (buffer file)
               else resize width height (buffer file)) = Some output
              /\ toFile output (fst written) = Some (snd written))
         sizes added
    /\ forall earlier width height,
        sizes = (earlier ++ [(width, height)])%list ->
        (if fileCompression opts
         then resize_jpeg width height (imageQuality opts) (buffer file)
         else resize width height (buffer file)) = Some (buffer file').
Proof.
  intros Hsizes Hrun. apply processImage_return in Hrun
    as [_ [_ [_ [_ [added [Hdisk [_ Hmade]]]]]]].
  rewrite Hsizes in Hmade. destruct Hmade as [Hall Hbuf].
  exists added. split; [exact Hdisk|]. split.
  - revert Hall. apply Forall2_impl. intros [width height] written Hw. exact Hw.
  - intros earlier width height ->.
    unfold Plan.left_in_buffer in Hbuf. rewrite fold_left_app in Hbuf.
    cbn [fold_left] in Hbuf.
    apply Forall2_app_inv_l in Hall as [l1 [l2 [_ [Hlast _]]]].
    inversion Hlast as [|? written ? ? [output [Hout _]] _]; subst.
    rewrite Hout in Hbuf. cbn [JsString.nullish] in Hbuf.
    rewrite Hbuf. exact Hout.
Qed.

(** X8: with [fileCompression] and no resize ratios, the one file written
    holds what [toFile] stores for the JPEG encoding at [imageQuality] of
    the uploaded bytes, at [resolve(basePath, localPath, fileName)], and
    [file.buffer] is left holding that JPEG encoding. *)
Theorem processImage_compress_only file w recs file' w' :
  fileCompression opts = true ->
  fileResizeRatio opts = None ->
  processImage env opts file w = (Return (recs, file'), w') ->
  exists r output stored,
    recs = [r]
    /\ jpeg (imageQuality opts) (buffer file) = Some output
    /\ toFile output (FileData.destination r) = Some stored
    /\ disk w' = (disk w ++ [(FileData.destination r, stored)])%list
    /\ FileData.destination r
       = Path.resolve (cwd env)
           [basePath opts; localPath opts; FileData.filename r]
    /\ buffer file' = output.
Proof.
  intros Hc Hnone Hrun. apply processImage_return in Hrun
    as [-> [_ [_ [_ [added [Hdisk [_ Hmade]]]]]]].
  unfold Plan.expected_records. rewrite Hnone in *. rewrite Hc in Hmade.
  destruct Hmade as [output [stored [Hj [Hbuf [-> Hst]]]]].
  cbv zeta. eexists _, output, stored. split; [reflexivity|].
  split; [exact Hj|]. split; [exact Hst|]. split; [exact Hdisk|].
  split; [reflexivity | exact Hbuf].
Qed.

(** X9: the loop over [req.files] leaves as many file objects as it found,
    in the same order, each with the field name, original name, encoding
    and MIME type it came with: the loop only assigns [filename],
    [destination], [buffer] and [contenttype]. *)
Theorem forEachFile_keeps_parts files acc w data files' w' :
  forEachFile env opts files acc w = (Return (data, files'), w') ->
  Forall2
    (fun after before =>
       fieldname after = fieldname before
       /\ originalname after = originalname before
       /\ encoding after = encoding before
       /\ mimetype after = mimetype before)
    files' files.
Proof.
  intros Hrun. apply forEachFile_return in Hrun as [_ [Hparts _]]. exact Hparts.
Qed.


End Guarantees.

(** ** Names, extensions and paths *)

Section NameFacts.

Import UploadManager.

Lemma string_append_assoc (a b c : string) : (a ++ b) ++ c = a ++ (b ++ c).
Proof. induction a as [|x a IH]; simpl; [reflexivity | now rewrite IH]. Qed.

Lemma string_append_cancel (a s s' : string) : a ++ s = a ++ s' -> s = s'.
Proof.
  induction a as [|x a IH]; simpl; intros Heq; [exact Heq|].
  injection Heq as Heq. now apply IH.
Qed.

Lemma endsWith_refl (s : string) : Plan.endsWith s s = true.
Proof. destruct s; simpl; now rewrite ?String.eqb_refl, ?Ascii.eqb_refl. Qed.

Lemma endsWith_after (a suffix s : string) :
  Plan.endsWith suffix s = true -> Plan.endsWith suffix (a ++ s) = true.
Proof.
  intros Hs. induction a as [|x a IH]; simpl; [exact Hs|].
  rewrite IH. apply orb_true_r.
Qed.

Lemma occurs_append (c : ascii) (a b : string) :
  Plan.occurs c (a ++ b) = Plan.occurs c a || Plan.occurs c b.
Proof.
  induction a as [|x a IH]; simpl; [reflexivity|].
  now rewrite IH, orb_assoc.
Qed.

(** Reading a string up to the first [c]. *)
Lemma append_separator_inj (c : ascii) (a : string) : forall a' r r',
  Plan.occurs c a = false ->
  Plan.occurs c a' = false ->
  a ++ String c r = a' ++ String c r' ->
  a = a' /\ r = r'.
Proof.
  induction a as [|x a IH]; intros [|x' a'] r r' Ha Ha' Heq; simpl in *.
  - injection Heq as <-. now split.
  - injection Heq as <- _. now rewrite Ascii.eqb_refl in Ha'.
  - injection Heq as -> _. now rewrite Ascii.eqb_refl in Ha.
  - injection Heq as <- Heq.
    apply orb_false_elim in Ha as [_ Ha]. apply orb_false_elim in Ha' as [_ Ha'].
    destruct (IH _ _ _ Ha Ha' Heq) as [<- <-]. now split.
Qed.

(** [`${n}`] is made of digits and a sign. *)
Lemma occurs_of_number (c : ascii) (n : Z) :
  Plan.occurs c "-0123456789" = false ->
  Plan.occurs c (JsString.of_number n) = false.
Proof.
  intros Hc. cbn [Plan.occurs] in Hc. rewrite orb_false_r in Hc.
  repeat match type of Hc with
         | _ || _ = false => apply orb_false_elim in Hc as [? Hc]
         end.
  assert (Hd : forall d, Plan.occurs c (NilEmpty.string_of_uint d) = false).
  { induction d; cbn [Plan.occurs NilEmpty.string_of_uint];
      rewrite ?IHd, ?orb_false_r; [reflexivity | assumption ..]. }
  assert (Hz : forall d, Plan.occurs c (NilZero.string_of_uint d) = false).
  { intros d. destruct d; try apply Hd.
    cbn [Plan.occurs NilZero.string_of_uint]. now rewrite orb_false_r. }
  unfold JsString.of_number.
  destruct n as [|p|p]; cbn [Z.to_int NilZero.string_of_int].
  - apply Hz.
  - apply Hz.
  - cbn [Plan.occurs]. rewrite Hz, orb_false_r. assumption.
Qed.

Lemma of_number_inj (n n' : Z) :
  JsString.of_number n = JsString.of_number n' -> n = n'.
Proof.
  unfold JsString.of_number. intros Heq. apply DecimalZ.to_int_inj.
  assert (Hparse : forall z,
             NilZero.int_of_string (NilZero.string_of_int (Z.to_int z))
             = Some (Z.to_int z)).
  { intros z. apply NilZero.isi; destruct z as [|p|p]; simpl; try discriminate;
      intros [= Hnil]; now apply DecimalPos.Unsigned.to_uint_nonnil in Hnil. }
  pose proof (Hparse n) as Hn. rewrite Heq, Hparse in Hn. now injection Hn.
Qed.

(** The name of a derivative tells its ratio and its timestamp. *)
Lemma sized_name_inj file width height now width' height' now' :
  sized_name file width height now = sized_name file width' height' now' ->
  width = width' /\ height = height' /\ now = now'.
Proof.
  unfold sized_name. intros Heq.
  apply string_append_cancel in Heq. simpl in Heq. injection Heq as Heq.
  apply append_separator_inj in Heq as [Hw Heq];
    try (apply occurs_of_number; reflexivity).
  change ("_" ++ ?a) with (String "_" a) in Heq.
  apply append_separator_inj in Heq as [Hh Heq];
    try (apply occurs_of_number; reflexivity).
  change (?a ++ ".jpeg") with (a ++ String "." "jpeg") in Heq.
  apply append_separator_inj in Heq as [Ht _];
    try (apply occurs_of_number; reflexivity).
  apply of_number_inj in Hw, Hh, Ht. now repeat split.
Qed.

Lemma sized_name_jpeg file width height now :
  Plan.endsWith ".jpeg" (sized_name file width height now) = true.
Proof. unfold sized_name. repeat apply endsWith_after. apply endsWith_refl. Qed.

Lemma plain_name_jpeg file now :
  Plan.endsWith ".jpeg" (plain_name file now) = true.
Proof. unfold plain_name. repeat apply endsWith_after. apply endsWith_refl. Qed.

(** *** [split] and [join] *)

Lemma split_segments (sep : ascii) (s : string) :
  Forall (fun seg => Plan.occurs sep seg = false) (JsString.split sep s).
Proof.
  induction s as [|c t IH]; simpl; [repeat constructor|].
  destruct (Ascii.eqb c sep) eqn:Hc; [constructor; [reflexivity | exact IH]|].
  destruct (JsString.split sep t) as [|h r]; [repeat constructor; simpl; now rewrite Hc|].
  inversion IH as [|? ? Hh Hr]; subst. constructor; [|exact Hr].
  simpl. now rewrite Hc.
Qed.

Lemma join_split (sep : ascii) (s : string) :
  JsString.join (String sep "") (JsString.split sep s) = s.
Proof.
  unfold JsString.join. induction s as [|c t IH]; [reflexivity|]. simpl.
  pose proof (split_not_nil sep t) as Hne.
  destruct (Ascii.eqb c sep) eqn:Hc.
  - apply Ascii.eqb_eq in Hc. subst c.
    destruct (JsString.split sep t) as [|h r]; [contradiction|].
    change (String.concat (String sep "") ("" :: h :: r))
      with (String sep (String.concat (String sep "") (h :: r))).
    now rewrite IH.
  - destruct (JsString.split sep t) as [|h r]; [contradiction|].
    destruct r as [|h' r'].
    + simpl in *. now rewrite IH.
    + change (String.concat (String sep "") (String c h :: h' :: r'))
        with (String c (h ++ String sep (String.concat (String sep "") (h' :: r')))).
      change (String.concat (String sep "") (h :: h' :: r'))
        with (h ++ String sep (String.concat (String sep "") (h' :: r'))) in IH.
      now rewrite IH.
Qed.

Lemma pop_last {A : Type} (l : list A) (x : A) :
  JsString.pop l = Some x -> exists init, l = (init ++ [x])%list.
Proof.
  induction l as [|a l IH]; [discriminate|].
  destruct l as [|b l].
  - intros [= ->]. now exists [].
  - intros Hpop. destruct (IH Hpop) as [init ->]. now exists (a :: init).
Qed.

Lemma join_last (sep : string) (init : list string) (x : string) :
  init <> [] ->
  JsString.join sep (init ++ [x])%list = JsString.join sep init ++ sep ++ x.
Proof.
  unfold JsString.join. induction init as [|a init IH]; [contradiction|]. intros _.
  destruct init as [|b init]; [reflexivity|].
  change (String.concat sep ((a :: b :: init) ++ [x])%list)
    with (a ++ sep ++ String.concat sep ((b :: init) ++ [x])%list).
  rewrite IH by discriminate.
  change (String.concat sep (a :: b :: init))
    with (a ++ sep ++ String.concat sep (b :: init)).
  now rewrite !string_append_assoc.
Qed.

(** *** [path.resolve] *)

Lemma gather_absolute (cwd0 : string) (paths : list string) : forall acc,
  JsString.startsWith "/" cwd0 = true ->
  snd (Path.gather (paths ++ [cwd0])%list acc) = true.
Proof.
  intros acc Hcwd. revert acc.
  induction paths as [|p rest IH]; intros acc; cbn [app Path.gather].
  - destruct (String.eqb cwd0 "") eqn:He.
    + apply String.eqb_eq in He. subst cwd0. discriminate Hcwd.
    + now rewrite Hcwd.
  - destruct (String.eqb p ""); [apply IH|].
    destruct (JsString.startsWith "/" p); [reflexivity | apply IH].
Qed.

(** With an absolute working directory, [resolve] answers an absolute path. *)
Lemma resolve_absolute (cwd0 : string) (args : list string) :
  JsString.startsWith "/" cwd0 = true ->
  JsString.startsWith "/" (Path.resolve cwd0 args) = true.
Proof.
  intros Hcwd. unfold Path.resolve.
  pose proof (gather_absolute cwd0 (rev args) "" Hcwd) as Habs.
  destruct (Path.gather (rev args ++ [cwd0]) "") as [resolvedPath absolute].
  simpl in Habs. subst absolute. reflexivity.
Qed.

(** X11: the extension [fileFilter] tests and the pass-through name ends
    with is what [split(".").pop()] answers, which is never undefined. It
    holds no dot, and the name is either this extension alone (a name
    without a dot is its own extension) or a stem, a dot and it. *)
Theorem extension_is_last_segment (name : string) :
  JsString.pop (JsString.split "." name) = Some (Spec.extension name)
  /\ Plan.occurs "." (Spec.extension name) = false
  /\ (name = Spec.extension name
      \/ exists stem, name = stem ++ "." ++ Spec.extension name).
Proof.
  unfold Spec.extension.
  destruct (pop_some (JsString.split "." name) (split_not_nil "." name))
    as [x Hpop].
  rewrite Hpop. cbn [JsString.nullish]. split; [reflexivity|].
  destruct (pop_last _ _ Hpop) as [init Hsegs].
  pose proof (split_segments "." name) as Hdots.
  pose proof (join_split "." name) as Hjoin.
  rewrite Hsegs in Hdots, Hjoin.
  apply Forall_app in Hdots as [_ Hx]. apply Forall_inv in Hx.
  split; [exact Hx|].
  destruct init as [|a init].
  - left. now rewrite <- Hjoin.
  - right. exists (JsString.join "." (a :: init)).
    rewrite <- Hjoin at 1. now apply join_last.
Qed.


End NameFacts.

(** ** What the records say *)

Section RecordFacts.

Import UploadManager.
Variable env : Env.

Lemma sized_records_Forall (P : FileData.t -> Prop) opts file :
  (forall width height now,
     P (Spec.derivative file (sized_name file width height now)
          (Plan.loop_destination env opts (sized_name file width height now)))) ->
  forall sizes tick, Forall P (Plan.sized_records env opts file sizes tick).
Proof.
  intros HP. induction sizes as [|[width height] rest IH]; intros tick; simpl;
    constructor; [apply HP | apply IH].
Qed.

Lemma request_records_Forall (P : FileData.t -> Prop) opts :
  (forall file width height now,
     P (Spec.derivative file (sized_name file width height now)
          (Plan.loop_destination env opts (sized_name file width height now)))) ->
  (forall file now,
     P (Spec.derivative file (plain_name file now)
          (Path.resolve (cwd env)
             [basePath opts; localPath opts; plain_name file now]))) ->
  forall files tick, Forall P (Plan.request_records env opts files tick).
Proof.
  intros Hsized Hplain. induction files as [|file rest IH]; intros tick; simpl;
    [constructor|].
  destruct (Spec.is_image file); [|apply IH].
  apply Forall_app. split; [|apply IH].
  unfold Plan.expected_records. destruct (fileResizeRatio opts) as [sizes|].
  - apply sized_records_Forall. apply Hsized.
  - repeat constructor. apply Hplain.
Qed.

Lemma sized_records_names opts file name sizes : forall tick,
  In name (map FileData.filename (Plan.sized_records env opts file sizes tick)) ->
  exists width height now,
    In (width, height) sizes /\ name = sized_name file width height now.
Proof.
  induction sizes as [|[width height] rest IH]; intros tick; simpl; [intros []|].
  intros [<- | Hin].
  - exists width, height, (clock env tick). split; [now left | reflexivity].
  - destruct (IH _ Hin) as [w0 [h0 [now [Hsize ->]]]].
    exists w0, h0, now. split; [now right | reflexivity].
Qed.

Lemma sized_records_distinct opts file sizes : forall tick,
  NoDup sizes ->
  NoDup (map FileData.filename (Plan.sized_records env opts file sizes tick)).
Proof.
  induction sizes as [|[width height] rest IH]; intros tick Hnd; simpl;
    [constructor|].
  inversion Hnd as [|? ? Hfresh Hrest]; subst. constructor; [|now apply IH].
  intros Hin. apply sized_records_names in Hin as [w0 [h0 [now [Hsize Hname]]]].
  apply sized_name_inj in Hname as [<- [<- _]]. contradiction.
Qed.

Lemma sized_records_options opts1 opts2 file sizes : forall tick,
  localPath opts1 = localPath opts2 ->
  Plan.sized_records env opts1 file sizes tick
  = Plan.sized_records env opts2 file sizes tick.
Proof.
  induction sizes as [|[width height] rest IH]; intros tick Hlocal; simpl;
    [reflexivity|].
  rewrite (IH _ Hlocal). unfold Plan.loop_destination. now rewrite Hlocal.
Qed.

Lemma request_records_agree opts1 opts2 :
  fileResizeRatio opts1 = fileResizeRatio opts2 ->
  basePath opts1 = basePath opts2 ->
  localPath opts1 = localPath opts2 ->
  forall files1 files2, Forall2 Plan.same_part files1 files2 ->
  forall tick,
    Plan.request_records env opts1 files1 tick
    = Plan.request_records env opts2 files2 tick.
Proof.
  intros Hratio Hbase Hlocal files1 files2 Hparts.
  induction Hparts as [|a b rest1 rest2 Hab _ IH]; intros tick; simpl;
    [reflexivity|].
  assert (Himg : Spec.is_image a = Spec.is_image b).
  { unfold Spec.is_image. destruct Hab as [_ [_ [_ Hm]]]. now rewrite Hm. }
  rewrite Himg, !IH, Hratio. destruct (Spec.is_image b); [|reflexivity].
  f_equal. rewrite (expected_records_same_part env opts1 a b tick Hab).
  unfold Plan.expected_records. rewrite Hratio, Hbase, Hlocal.
  destruct (fileResizeRatio opts2); [|reflexivity].
  now apply sized_records_options.
Qed.

Section WithSharp.

Context `{Sharp}.
Variable opts : UploadOptions.

(** X13: every record of a successful [uploadFiles] is named [....jpeg],
    whatever the type and the name of the upload it comes from. *)
Theorem uploadFiles_names_jpeg req w data code w' :
  uploadFiles env opts req w = Some (Success data code, w') ->
  Forall (fun r => Plan.endsWith ".jpeg" (FileData.filename r) = true) data.
Proof.
  intros Hrun. apply uploadFiles_cases in Hrun as [[Hcb _] | [_ [o [Hloop Hcb]]]];
    [discriminate Hcb|].
  destruct o as [[data0 files']|e]; [|discriminate Hcb].
  injection Hcb as ->.
  apply forEachFile_return in Hloop as [-> _]. cbn [app].
  apply request_records_Forall; intros; [apply sized_name_jpeg | apply plain_name_jpeg].
Qed.

(** X14: when the working directory of the process is an absolute path,
    every record of a successful [uploadFiles] carries an absolute
    destination, whatever [basePath], [localPath] and the field names are. *)
Theorem uploadFiles_destinations_absolute req w data code w' :
  JsString.startsWith "/" (cwd env) = true ->
  uploadFiles env opts req w = Some (Success data code, w') ->
  Forall (fun r => JsString.startsWith "/" (FileData.destination r) = true) data.
Proof.
  intros Hcwd Hrun.
  apply uploadFiles_cases in Hrun as [[Hcb _] | [_ [o [Hloop Hcb]]]];
    [discriminate Hcb|].
  destruct o as [[data0 files']|e]; [|discriminate Hcb].
  injection Hcb as ->.
  apply forEachFile_return in Hloop as [-> _]. cbn [app].
  apply request_records_Forall; intros; now apply resolve_absolute.
Qed.

(** X15: when the resize ratios are pairwise distinct, the records
    [processImage] returns have pairwise distinct file names, also when all
    of them are named within the same second: width and height tell them
    apart. *)
Theorem processImage_distinct_names file w recs file' w' sizes :
  fileResizeRatio opts = Some sizes ->
  NoDup sizes ->
  processImage env opts file w = (Return (recs, file'), w') ->
  NoDup (map FileData.filename recs).
Proof.
  intros Hsizes Hnd Hrun. apply processImage_return in Hrun as [-> _].
  unfold Plan.expected_records. rewrite Hsizes. now apply sized_records_distinct.
Qed.

End WithSharp.

(** X16: the records do not depend on what was uploaded nor on what [sharp]
    made of it: two successful calls of [uploadFiles], under any two image
    libraries and any [fileCompression] and [imageQuality], hand over the
    same records when the requests have the same parts (field name,
    original name, encoding, MIME type), the options the same resize
    ratios, [basePath] and [localPath], and the clock has been read as often
    before. *)
Theorem uploadFiles_records_ignore_content
        (sharp1 sharp2 : Sharp) (opts1 opts2 : UploadOptions)
        (req1 req2 : list MulterFile) (w1 w2 : World)
        (data1 data2 : list FileData.t) (code1 code2 : Z) (w1' w2' : World) :
  fileResizeRatio opts1 = fileResizeRatio opts2 ->
  basePath opts1 = basePath opts2 ->
  localPath opts1 = localPath opts2 ->
  Forall2 Plan.same_part req1 req2 ->
  ticks w1 = ticks w2 ->
  @uploadFiles sharp1 env opts1 req1 w1 = Some (Success data1 code1, w1') ->
  @uploadFiles sharp2 env opts2 req2 w2 = Some (Success data2 code2, w2') ->
  data1 = data2.
Proof.
  intros Hratio Hbase Hlocal Hparts Hticks Hrun1 Hrun2.
  apply uploadFiles_cases in Hrun1 as [[Hcb _] | [_ [o1 [Hloop1 Hcb1]]]];
    [discriminate Hcb|].
  apply uploadFiles_cases in Hrun2 as [[Hcb _] | [_ [o2 [Hloop2 Hcb2]]]];
    [discriminate Hcb|].
  destruct o1 as [[d1 f1]|e]; [|discriminate Hcb1].
  destruct o2 as [[d2 f2]|e]; [|discriminate Hcb2].
  injection Hcb1 as -> _. injection Hcb2 as -> _.
  apply forEachFile_return in Hloop1 as [-> _].
  apply forEachFile_return in Hloop2 as [-> _].
  cbn [app]. rewrite Hticks.
  now apply request_records_agree.
Qed.

End RecordFacts.

(** ** [path.resolve] inside [path.resolve] *)

Section PathFacts.

Import UploadManager.

Lemma split_append (sep : ascii) (a b : string) :
  JsString.split sep (a ++ String sep b)
  = (JsString.split sep a ++ JsString.split sep b)%list.
Proof.
  induction a as [|c a IH]; simpl.
  - now rewrite Ascii.eqb_refl.
  - destruct (Ascii.eqb c sep); [now rewrite IH|].
    rewrite IH. pose proof (split_not_nil sep a) as Hne.
    destruct (JsString.split sep a) as [|h r]; [contradiction | reflexivity].
Qed.

Lemma split_whole (sep : ascii) (a : string) :
  Plan.occurs sep a = false -> JsString.split sep a = [a].
Proof.
  induction a as [|c a IH]; simpl; [reflexivity|]. intros Hno.
  apply orb_false_elim in Hno as [Hc Ha]. rewrite Hc, (IH Ha). reflexivity.
Qed.

Lemma split_join (sep : ascii) (segs : list string) :
  segs <> [] ->
  Forall (fun seg => Plan.occurs sep seg = false) segs ->
  JsString.split sep (JsString.join (String sep "") segs) = segs.
Proof.
  unfold JsString.join. induction segs as [|a segs IH]; [contradiction|].
  intros _ Hall. inversion Hall as [|? ? Ha Hrest]; subst.
  destruct segs as [|b segs]; [now apply split_whole|].
  change (String.concat (String sep "") (a :: b :: segs))
    with (a ++ String sep (String.concat (String sep "") (b :: segs))).
  rewrite split_append, (split_whole _ _ Ha), IH by (discriminate || assumption).
  reflexivity.
Qed.

Lemma normalize_append (l1 : list string) : forall out l2,
  Path.normalize false out (l1 ++ l2)
  = Path.normalize false (rev (Path.normalize false out l1)) l2.
Proof.
  induction l1 as [|seg l1 IH]; intros out l2; cbn [app Path.normalize].
  - now rewrite rev_involutive.
  - destruct (String.eqb seg "" || String.eqb seg "."); [apply IH|].
    destruct (String.eqb seg ".."); [|apply IH].
    destruct out as [|last out']; [apply IH|].
    destruct (String.eqb last ".."); apply IH.
Qed.

(** Segments that [normalize] keeps as they are. *)
Lemma normalize_kept (segs : list string) : forall out rest,
  Forall (fun seg =>
            String.eqb seg "" || String.eqb seg "." || String.eqb seg ".." = false)
         segs ->
  Path.normalize false out (segs ++ rest)
  = Path.normalize false (rev segs ++ out) rest.
Proof.
  induction segs as [|seg segs IH]; intros out rest Hall; [reflexivity|].
  inversion Hall as [|? ? Hseg Hrest]; subst.
  apply orb_false_elim in Hseg as [Hseg Hdd].
  cbn [app Path.normalize]. rewrite Hseg, Hdd, (IH _ _ Hrest).
  cbn [rev]. now rewrite <- app_assoc.
Qed.

Lemma normalize_Forall (Q : string -> Prop) (segs : list string) : forall out,
  Forall
    (fun seg =>
       String.eqb seg "" || String.eqb seg "." || String.eqb seg ".." = false ->
       Q seg)
    segs ->
  Forall Q out ->
  Forall Q (Path.normalize false out segs).
Proof.
  induction segs as [|seg segs IH]; intros out Hsegs Hout; cbn [Path.normalize].
  - now apply Forall_rev.
  - inversion Hsegs as [|? ? Hseg Hrest]; subst.
    destruct (String.eqb seg "" || String.eqb seg ".") eqn:He; [now apply IH|].
    destruct (String.eqb seg "..") eqn:Hdd.
    + destruct out as [|last out']; [now apply IH|].
      destruct (String.eqb last ".."); apply IH; try assumption.
      now inversion Hout.
    + apply IH; [assumption|]. constructor; [|assumption].
      apply Hseg. rewrite ?He, ?Hdd. reflexivity.
Qed.

(** What [normalize] answers for the segments of a path is made of
    segments it keeps, without a slash. *)
Lemma normalize_split_kept (path : string) :
  Forall
    (fun seg =>
       String.eqb seg "" || String.eqb seg "." || String.eqb seg ".." = false
       /\ Plan.occurs "/" seg = false)
    (Path.normalize false [] (JsString.split "/" path)).
Proof.
  apply normalize_Forall; [|constructor].
  pose proof (split_segments "/" path) as Hno.
  revert Hno. apply Forall_impl. intros seg Hseg Hkept. now split.
Qed.

(** The loop of [resolve] when it finds an absolute path: what it had
    gathered before is appended to a path that does not depend on it. *)
Lemma gather_found (paths : list string) :
  (exists acc0, snd (Path.gather paths acc0) = true) ->
  exists found, forall acc, Path.gather paths acc = (found ++ "/" ++ acc, true).
Proof.
  induction paths as [|p rest IH]; intros [acc0 Habs]; cbn [Path.gather] in *.
  - discriminate Habs.
  - destruct (String.eqb p ""); [apply IH; now exists acc0|].
    destruct (JsString.startsWith "/" p).
    + now exists p.
    + destruct IH as [found Hfound]; [now exists (p ++ "/" ++ acc0)|].
      exists (found ++ "/" ++ p). intros acc. rewrite Hfound.
      now rewrite !string_append_assoc.
Qed.

(** Normalizing a path that ends with the normal form of [found], or with
    [found] itself, is the same. *)
Lemma normalize_normal_prefix (found rest : string) :
  let normal :=
    "/" ++ JsString.join "/"
             (Path.normalize false [] (JsString.split "/" (found ++ "/" ++ ""))) in
  Path.normalize false [] (JsString.split "/" (normal ++ "/" ++ rest))
  = Path.normalize false [] (JsString.split "/" (found ++ "/" ++ rest)).
Proof.
  cbv zeta.
  change (found ++ "/" ++ "") with (found ++ String "/" "").
  change (found ++ "/" ++ rest) with (found ++ String "/" rest).
  rewrite (split_append "/" found ""), (split_append "/" found rest).
  rewrite (normalize_append (JsString.split "/" found) [] (JsString.split "/" "")).
  rewrite (normalize_append (JsString.split "/" found) [] (JsString.split "/" rest)).
  pose proof (normalize_split_kept found) as Hkept.
  set (segs := Path.normalize false [] (JsString.split "/" found)) in *.
  change (JsString.split "/" "") with [""]. cbn [Path.normalize String.eqb orb].
  rewrite rev_involutive.
  change (("/" ++ JsString.join "/" segs) ++ "/" ++ rest)
    with (String "/" (JsString.join "/" segs ++ String "/" rest)).
  cbn [JsString.split]. rewrite Ascii.eqb_refl.
  rewrite (split_append "/" (JsString.join "/" segs) rest).
  cbn [Path.normalize String.eqb orb].
  destruct segs as [|seg segs'] eqn:Hsegs.
  - reflexivity.
  - rewrite split_join;
      [|discriminate | revert Hkept; apply Forall_impl; now intros ? [_ ?]].
    rewrite normalize_kept;
      [|revert Hkept; apply Forall_impl; now intros ? [? _]].
    now rewrite app_nil_r.
Qed.

Lemma gather_cons (p : string) (rest : list string) (acc : string) :
  Path.gather (p :: rest) acc
  = if String.eqb p "" then Path.gather rest acc
    else if JsString.startsWith "/" p then (p ++ "/" ++ acc, true)
         else Path.gather rest (p ++ "/" ++ acc).
Proof. reflexivity. Qed.

(** The inner [resolve] of lines 171-175 and 201-205 adds nothing. *)
Lemma resolve_nested (cwd0 dir local name : string) :
  JsString.startsWith "/" cwd0 = true ->
  Path.resolve cwd0 [dir; Path.resolve cwd0 [dir; local]; name]
  = Path.resolve cwd0 [dir; local; name].
Proof.
  intros Hcwd.
  pose proof (resolve_absolute cwd0 [dir; local] Hcwd) as Hinner.
  destruct (gather_found [local; dir; cwd0]) as [found Hfound].
  { exists "". apply (gather_absolute cwd0 [local; dir] "" Hcwd). }
  assert (Hnormal : Path.resolve cwd0 [dir; local]
                    = "/" ++ JsString.join "/"
                               (Path.normalize false []
                                  (JsString.split "/" (found ++ "/" ++ "")))).
  { unfold Path.resolve. cbn [rev app]. now rewrite Hfound. }
  set (inner := Path.resolve cwd0 [dir; local]) in *.
  assert (Hgather : forall acc,
             Path.gather [inner; dir; cwd0] acc = (inner ++ "/" ++ acc, true)).
  { intros acc. cbn [Path.gather]. rewrite Hinner.
    destruct (String.eqb inner "") eqn:He; [|reflexivity].
    apply String.eqb_eq in He. rewrite He in Hinner. discriminate Hinner. }
  unfold Path.resolve. cbn [rev app].
  rewrite (gather_cons name [inner; dir; cwd0]), (gather_cons name [local; dir; cwd0]).
  destruct (String.eqb name "").
  - rewrite Hgather, Hfound. cbn [negb]. rewrite Hnormal.
    now rewrite (normalize_normal_prefix found "").
  - destruct (JsString.startsWith "/" name); [reflexivity|].
    rewrite Hgather, Hfound. cbn [negb]. rewrite Hnormal.
    now rewrite (normalize_normal_prefix found (name ++ "/" ++ "")).
Qed.

Section WithSharp.

Context `{Sharp}.
Variable env : Env.
Variable opts : UploadOptions.

(** X17: when the working directory of the process is an absolute path, the
    destination of every record of the resize loops is
    [resolve(__dirname, localPath, fileName)]: the inner [path.resolve] of
    the loops adds nothing, and [basePath] plays no part. *)
Theorem processImage_loop_destination file w recs file' w' sizes :
  JsString.startsWith "/" (cwd env) = true ->
  fileResizeRatio opts = Some sizes ->
  processImage env opts file w = (Return (recs, file'), w') ->
  Forall
    (fun r =>
       FileData.destination r
       = Path.resolve (cwd env)
           [dirname env; localPath opts; FileData.filename r])
    recs.
Proof.
  intros Hcwd Hsizes Hrun.
  pose proof (processImage_destination_with_ratios env opts _ _ _ _ _ _ Hsizes Hrun)
    as Hdest.
  revert Hdest. apply Forall_impl. intros r ->. now apply resolve_nested.
Qed.

End WithSharp.

End PathFacts.

(** ** More runs on the sample data *)

Section MoreRuns.

Import UploadManager.
#[local] Existing Instance Demo.toy_sharp.

(** Two images under the README's options: four files, four records. *)
Lemma uploadFiles_writes_match_records_witness :
  uploadFiles Demo.env Demo.readme_manager Demo.two_images Demo.world
  = Some (Success Demo.two_images_records 200, Demo.two_images_world)
  /\ exists added,
      disk Demo.two_images_world = (disk Demo.world ++ added)%list
      /\ map fst added = map FileData.destination Demo.two_images_records.
Proof.
  split; [reflexivity|].
  exact (@uploadFiles_writes_match_records Demo.toy_sharp Demo.env
           Demo.readme_manager Demo.two_images Demo.world
           Demo.two_images_records 200 Demo.two_images_world eq_refl).
Defined.

(** A PNG, then an image the library rejects: the PNG's two files stay. *)
Lemma uploadFiles_failure_leaves_files_witness :
  uploadFiles Demo.env Demo.readme_manager
    [Demo.png_avatar; Samples.blank_image] Demo.world
  = Some (Failure SharpError, Samples.interrupted_world)
  /\ exists added,
      disk Samples.interrupted_world = (disk Demo.world ++ added)%list
      /\ List.length added
         < List.length
             (Plan.request_records Demo.env Demo.readme_manager
                [Demo.png_avatar; Samples.blank_image] 0)
      /\ map fst added
         = map FileData.destination
             (firstn (List.length added)
                (Plan.request_records Demo.env Demo.readme_manager
                   [Demo.png_avatar; Samples.blank_image] 0)).
Proof.
  split; [reflexivity|].
  exact (@uploadFiles_failure_leaves_files Demo.toy_sharp Demo.env
           Demo.readme_manager [Demo.png_avatar; Samples.blank_image]
           Demo.world Samples.interrupted_world eq_refl).
Defined.

(** A PDF under the default allow-list. *)
Lemma uploadFiles_response_means_refused_witness :
  uploadFiles Demo.env Demo.plain_manager
    [Demo.png_avatar; Demo.pdf_report] Demo.world
  = Some (Failure (Response 400), Demo.world)
  /\ (400 = 400)%Z
  /\ Demo.world = Demo.world
  /\ exists part,
      In part [Demo.png_avatar; Demo.pdf_report]
      /\ fileFilter Demo.plain_manager part = Some (Reject (Response 400)).
Proof.
  split; [reflexivity|].
  exact (@uploadFiles_response_means_refused Demo.toy_sharp Demo.env
           Demo.plain_manager [Demo.png_avatar; Demo.pdf_report]
           Demo.world 400 Demo.world eq_refl).
Defined.

Lemma uploadFiles_records_planned_witness :
  uploadFiles Demo.env Demo.readme_manager Demo.two_images Demo.world
  = Some (Success Demo.two_images_records 200, Demo.two_images_world)
  /\ (200 = 200)%Z
  /\ Demo.two_images_records
     = Plan.request_records Demo.env Demo.readme_manager Demo.two_images 0.
Proof.
  split; [reflexivity|].
  exact (@uploadFiles_records_planned Demo.toy_sharp Demo.env
           Demo.readme_manager Demo.two_images Demo.world
           Demo.two_images_records 200 Demo.two_images_world eq_refl).
Defined.

(** One PDF, PDFs allowed. *)
Lemma uploadFiles_without_images_witness :
  Forall (Plan.accepted Demo.pdf_manager) [Demo.pdf_report]
  /\ Forall (fun part => Spec.is_image part = false) [Demo.pdf_report]
  /\ uploadFiles Demo.env Demo.pdf_manager [Demo.pdf_report] Demo.world
     = Some (Success [] 200, {| ticks := 0 + 1; disk := [] |}).
Proof.
  assert (Hacc : Forall (Plan.accepted Demo.pdf_manager) [Demo.pdf_report])
    by (constructor; [reflexivity | constructor]).
  assert (Hno : Forall (fun part => Spec.is_image part = false) [Demo.pdf_report])
    by (constructor; [reflexivity | constructor]).
  split; [exact Hacc|]. split; [exact Hno|].
  exact (@uploadFiles_without_images Demo.toy_sharp Demo.env Demo.pdf_manager
           [Demo.pdf_report] Demo.world Hacc Hno).
Defined.

(** Two images, the empty list of ratios, a library that rejects
    everything. *)
Lemma uploadFiles_empty_ratio_list_witness :
  fileResizeRatio Samples.no_ratios_manager = Some []
  /\ Forall (Plan.accepted Samples.no_ratios_manager) Demo.two_images
  /\ @uploadFiles Samples.broken_sharp Demo.env Samples.no_ratios_manager
       Demo.two_images Demo.world
     = Some (Success [] 200, {| ticks := 0 + 2; disk := [] |}).
Proof.
  assert (Hacc : Forall (Plan.accepted Samples.no_ratios_manager) Demo.two_images)
    by (repeat (constructor; [reflexivity|]); constructor).
  split; [reflexivity|]. split; [exact Hacc|].
  exact (@uploadFiles_empty_ratio_list Samples.broken_sharp Demo.env
           Samples.no_ratios_manager Demo.two_images Demo.world eq_refl Hacc).
Defined.

(** The README's options on one PNG. *)
Lemma processImage_derives_from_original_witness :
  processImage Demo.env Demo.readme_manager Demo.png_avatar Demo.world
  = (Return (Demo.readme_records, Demo.readme_file), Demo.readme_world)
  /\ exists added,
      disk Demo.readme_world = (disk Demo.world ++ added)%list
      /\ Forall2
           (fun '(width, height) written =>
              exists output,
                resize_jpeg width height 70 (buffer Demo.png_avatar) = Some output
                /\ toFile output (fst written) = Some (snd written))
           [(100, 100)%Z; (200, 200)%Z] added
      /\ forall earlier width height,
          [(100, 100)%Z; (200, 200)%Z] = (earlier ++ [(width, height)])%list ->
          resize_jpeg width height 70 (buffer Demo.png_avatar)
          = Some (buffer Demo.readme_file).
Proof.
  split; [reflexivity|].
  exact (@processImage_derives_from_original Demo.toy_sharp Demo.env
           Demo.readme_manager Demo.png_avatar Demo.world
           Demo.readme_records Demo.readme_file Demo.readme_world
           [(100, 100)%Z; (200, 200)%Z] eq_refl eq_refl).
Defined.

(** Compression alone on one PNG. *)
Lemma processImage_compress_only_witness :
  processImage Demo.env Samples.compress_manager Demo.png_avatar Demo.world
  = (Return ([Samples.compressed_record], Samples.compressed_file),
     Samples.compressed_world)
  /\ exists r output stored,
      [Samples.compressed_record] = [r]
      /\ jpeg 70 (buffer Demo.png_avatar) = Some output
      /\ toFile output (FileData.destination r) = Some stored
      /\ disk Samples.compressed_world
         = (disk Demo.world ++ [(FileData.destination r, stored)])%list
      /\ FileData.destination r
         = Path.resolve "/home/app" ["/srv/app"; "out"; FileData.filename r]
      /\ buffer Samples.compressed_file = output.
Proof.
  split; [reflexivity|].
  exact (@processImage_compress_only Demo.toy_sharp Demo.env
           Samples.compress_manager Demo.png_avatar Demo.world
           [Samples.compressed_record] Samples.compressed_file
           Samples.compressed_world eq_refl eq_refl eq_refl).
Defined.

(** A PDF and a PNG. *)
Lemma forEachFile_keeps_parts_witness :
  forEachFile Demo.env Demo.pdf_manager Demo.mixed_request [] Demo.world
  = (Return (Demo.mixed_records, Samples.mixed_files_after), Demo.mixed_world)
  /\ Forall2
       (fun after before =>
          fieldname after = fieldname before
          /\ originalname after = originalname before
          /\ encoding after = encoding before
          /\ mimetype after = mimetype before)
       Samples.mixed_files_after Demo.mixed_request.
Proof.
  split; [reflexivity|].
  exact (@forEachFile_keeps_parts Demo.toy_sharp Demo.env Demo.pdf_manager
           Demo.mixed_request [] Demo.world
           Demo.mixed_records Samples.mixed_files_after Demo.mixed_world eq_refl).
Defined.



Lemma uploadFiles_names_jpeg_witness :
  uploadFiles Demo.env Demo.readme_manager Demo.two_images Demo.world
  = Some (Success Demo.two_images_records 200, Demo.two_images_world)
  /\ Forall (fun r => Plan.endsWith ".jpeg" (FileData.filename r) = true)
       Demo.two_images_records.
Proof.
  split; [reflexivity|].
  exact (@uploadFiles_names_jpeg Demo.env Demo.toy_sharp Demo.readme_manager
           Demo.two_images Demo.world
           Demo.two_images_records 200 Demo.two_images_world eq_refl).
Defined.

Lemma uploadFiles_destinations_absolute_witness :
  JsString.startsWith "/" (cwd Demo.env) = true
  /\ uploadFiles Demo.env Demo.readme_manager Demo.two_images Demo.world
     = Some (Success Demo.two_images_records 200, Demo.two_images_world)
  /\ Forall (fun r => JsString.startsWith "/" (FileData.destination r) = true)
       Demo.two_images_records.
Proof.
  split; [reflexivity|]. split; [reflexivity|].
  exact (@uploadFiles_destinations_absolute Demo.env Demo.toy_sharp
           Demo.readme_manager Demo.two_images Demo.world
           Demo.two_images_records 200 Demo.two_images_world eq_refl eq_refl).
Defined.

Lemma processImage_distinct_names_witness :
  NoDup [(100, 100)%Z; (200, 200)%Z]
  /\ processImage Demo.env Demo.readme_manager Demo.png_avatar Demo.world
     = (Return (Demo.readme_records, Demo.readme_file), Demo.readme_world)
  /\ NoDup (map FileData.filename Demo.readme_records).
Proof.
  assert (Hnd : NoDup [(100, 100)%Z; (200, 200)%Z]).
  { constructor; [simpl; intros [Heq | []]; discriminate Heq|].
    constructor; [simpl; intros [] | constructor]. }
  split; [exact Hnd|]. split; [reflexivity|].
  exact (@processImage_distinct_names Demo.env Demo.toy_sharp Demo.readme_manager
           Demo.png_avatar Demo.world
           Demo.readme_records Demo.readme_file Demo.readme_world
           [(100, 100)%Z; (200, 200)%Z] eq_refl Hnd eq_refl).
Defined.

(** Compression and quality 70 under the toy library, no compression under
    the library that rejects nothing: the same four records. *)
Lemma uploadFiles_records_ignore_content_witness :
  Forall2 Plan.same_part Demo.two_images Demo.two_images
  /\ @uploadFiles Demo.toy_sharp Demo.env Demo.readme_manager
       Demo.two_images Demo.world
     = Some (Success Demo.two_images_records 200, Demo.two_images_world)
  /\ @uploadFiles Samples.echo_sharp Demo.env Samples.resize_only_manager
       Demo.two_images Demo.world
     = Some (Success Demo.two_images_records 200, Samples.resize_only_world)
  /\ Demo.two_images_records = Demo.two_images_records.
Proof.
  assert (Hparts : Forall2 Plan.same_part Demo.two_images Demo.two_images).
  { repeat (constructor; [now repeat split|]). constructor. }
  split; [exact Hparts|]. split; [reflexivity|]. split; [reflexivity|].
  exact (@uploadFiles_records_ignore_content Demo.env
           Demo.toy_sharp Samples.echo_sharp
           Demo.readme_manager Samples.resize_only_manager
           Demo.two_images Demo.two_images Demo.world Demo.world
           Demo.two_images_records Demo.two_images_records 200 200
           Demo.two_images_world Samples.resize_only_world
           eq_refl eq_refl eq_refl Hparts eq_refl eq_refl eq_refl).
Defined.

Lemma processImage_loop_destination_witness :
  JsString.startsWith "/" (cwd Demo.env) = true
  /\ processImage Demo.env Demo.readme_manager Demo.png_avatar Demo.world
     = (Return (Demo.readme_records, Demo.readme_file), Demo.readme_world)
  /\ Forall
       (fun r =>
          FileData.destination r
          = Path.resolve "/home/app"
              ["/opt/pkg/dist"; "public/img"; FileData.filename r])
       Demo.readme_records.
Proof.
  split; [reflexivity|]. split; [reflexivity|].
  exact (@processImage_loop_destination Demo.toy_sharp Demo.env
           Demo.readme_manager Demo.png_avatar Demo.world
           Demo.readme_records Demo.readme_file Demo.readme_world
           [(100, 100)%Z; (200, 200)%Z] eq_refl eq_refl eq_refl).
Defined.

End MoreRuns.

(** ** Two uploads, one name *)

Section Collisions.

Import UploadManager.

Section WithSharp.

Context `{Sharp}.
Variable env : Env.
Variable opts : UploadOptions.

(** X18: the name of a derivative is made of the field name and the second
    of the clock only. Without resize ratios, two images uploaded under the
    same field name and processed one after the other within the same
    second get the same file name and destination: the second file
    overwrites the first, and both records point to it. *)
Theorem processImage_same_second_overwrites
        a b w ra fa w1 rb fb w2 :
  fileResizeRatio opts = None ->
  fieldname a = fieldname b ->
  clock env (ticks w) = clock env (S (ticks w)) ->
  processImage env opts a w = (Return ([ra], fa), w1) ->
  processImage env opts b w1 = (Return ([rb], fb), w2) ->
  FileData.filename ra = FileData.filename rb
  /\ FileData.destination ra = FileData.destination rb
  /\ exists first second,
      disk w2
      = (disk w ++ [(FileData.destination ra, first);
                    (FileData.destination ra, second)])%list
      /\ read_file (disk w2) (FileData.destination ra) = Some second.
Proof.
  intros Hnone Hfield Hclock Ha Hb.
  apply processImage_return in Ha
    as [Hra [Hticks [_ [_ [added1 [Hdisk1 [_ Hmade1]]]]]]].
  apply processImage_return in Hb
    as [Hrb [_ [_ [_ [added2 [Hdisk2 [_ Hmade2]]]]]]].
  unfold Plan.expected_records in Hra, Hrb. rewrite Hnone in *.
  cbv zeta in Hra, Hrb. injection Hra as ->. injection Hrb as ->.
  destruct Hmade1 as [out1 [first [_ [_ [-> _]]]]].
  destruct Hmade2 as [out2 [second [_ [_ [-> _]]]]].
  rewrite Nat.add_0_r in Hticks. rewrite Hticks in *.
  assert (Hname : plain_name a (clock env (ticks w))
                  = plain_name b (clock env (S (ticks w)))).
  { unfold plain_name. now rewrite Hfield, Hclock. }
  cbn [FileData.filename FileData.destination Spec.derivative] in *.
  rewrite <- Hname in *.
  split; [reflexivity|]. split; [reflexivity|].
  exists first, second.
  assert (Hdisk : disk w2
                  = (disk w
                     ++ [(Path.resolve (cwd env)
                            [basePath opts; localPath opts;
                             plain_name a (clock env (ticks w))], first);
                         (Path.resolve (cwd env)
                            [basePath opts; localPath opts;
                             plain_name a (clock env (ticks w))], second)])%list).
  { rewrite Hdisk2, Hdisk1, <- app_assoc. reflexivity. }
  split; [exact Hdisk|].
  rewrite Hdisk.
  change [(?p, first); (?q, second)] with ([(p, first)] ++ [(q, second)])%list.
  rewrite app_assoc. apply read_file_last.
Qed.

End WithSharp.

(** Two PNGs under the field name [avatar], a clock that stands still. *)
Lemma processImage_same_second_overwrites_witness :
  @processImage Demo.toy_sharp Samples.still_env Demo.plain_manager
    Demo.png_avatar Demo.world
  = (Return ([Demo.plain_record], Demo.plain_file), Demo.plain_world)
  /\ @processImage Demo.toy_sharp Samples.still_env Demo.plain_manager
       Samples.second_avatar Demo.plain_world
     = (Return ([Samples.second_record], Samples.second_file),
        Samples.second_world)
  /\ FileData.filename Demo.plain_record = FileData.filename Samples.second_record
  /\ FileData.destination Demo.plain_record
     = FileData.destination Samples.second_record
  /\ exists first second,
      disk Samples.second_world
      = (disk Demo.world
         ++ [(FileData.destination Demo.plain_record, first);
             (FileData.destination Demo.plain_record, second)])%list
      /\ read_file (disk Samples.second_world)
           (FileData.destination Demo.plain_record)
         = Some second.
Proof.
  split; [reflexivity|]. split; [reflexivity|].
  exact (@processImage_same_second_overwrites Demo.toy_sharp Samples.still_env
           Demo.plain_manager Demo.png_avatar Samples.second_avatar Demo.world
           Demo.plain_record Demo.plain_file Demo.plain_world
           Samples.second_record Samples.second_file Samples.second_world
           eq_refl eq_refl eq_refl eq_refl eq_refl).
Defined.

End Collisions.
